(** * Input sanitisation, CSP header and rate limiter of the photo gallery

    A shallow embedding of [src/lib/sanitize.ts] and the properties its
    specification states about it, followed by further properties of the
    same functions and of the mock photo generator ([getRandomItems],
    [generateMockPhotoData]).

    JavaScript strings are sequences of UTF-16 code units; they are modelled
    as [list N].  Values that reach a sanitizer at run time are modelled by
    [jsvalue]; calling a string method on a value that is not a string throws
    a [TypeError], which the [completion] monad records.  Numbers that the
    code uses as counters, sizes and millisecond timestamps are modelled as
    [Z]. *)

From Stdlib Require Import ZArith NArith List Bool Ascii String Lia DecimalString.
From Stdlib Require QArith Qround.
From stdpp Require Import gmap strings list fin_maps.

Local Open Scope N_scope.

(** ** Strings *)

Abbreviation jsstring := (list N).

Definition ch (a : ascii) : N := N_of_ascii a.

(** The double quote character, U+0022. *)
Definition quote : N := 34.

(** [js "abc"] is the JavaScript string literal ['abc']. *)
Definition js (s : string) : jsstring :=
  List.map N_of_ascii (list_ascii_of_string s).

(** ECMAScript WhiteSpace and LineTerminator code units: what [trim] strips
    and what [\s] matches. *)
Definition isWhiteSpace (c : N) : bool :=
  (c =? 9) || (c =? 10) || (c =? 11) || (c =? 12) || (c =? 13) || (c =? 32)
  || (c =? 160) || (c =? 5760) || ((8192 <=? c) && (c <=? 8202))
  || (c =? 8232) || (c =? 8233) || (c =? 8239) || (c =? 8287)
  || (c =? 12288) || (c =? 65279).

Fixpoint trimStart (s : jsstring) : jsstring :=
  match s with
  | [] => []
  | c :: r => if isWhiteSpace c then trimStart r else s
  end.

Definition trimEnd (s : jsstring) : jsstring := rev (trimStart (rev s)).

(** [String.prototype.trim] *)
Definition trim (s : jsstring) : jsstring := trimEnd (trimStart s).

(** [s.replace(/[class]/g, '')] for a character class [cls]. *)
Definition removeClass (cls : N -> bool) (s : jsstring) : jsstring :=
  List.filter (fun c => negb (cls c)) s.

(** [s.replace(/c/g, rep)] for a single character [c]. *)
Definition replaceChar (c : N) (rep : jsstring) (s : jsstring) : jsstring :=
  List.flat_map (fun x => if x =? c then rep else [x]) s.

(** [s.substring(0, n)] *)
Definition substring0 (n : nat) (s : jsstring) : jsstring := firstn n s.

(** [s.startsWith(p)] *)
Fixpoint startsWith (p s : jsstring) : bool :=
  match p, s with
  | [], _ => true
  | _ :: _, [] => false
  | a :: p', b :: s' => (a =? b) && startsWith p' s'
  end.

(** Does [p] occur in [s] as a substring? *)
Fixpoint includes (p s : jsstring) : bool :=
  startsWith p s || match s with [] => false | _ :: r => includes p r end.

(** Number of positions of [s] at which [p] occurs. *)
Fixpoint occurrences (p s : jsstring) : nat :=
  ((if startsWith p s then 1 else 0) +
   match s with [] => 0 | _ :: r => occurrences p r end)%nat.

(** [s.endsWith(p)] *)
Definition endsWith (p s : jsstring) : bool := startsWith (rev p) (rev s).

(** [parts.join(sep)] *)
Fixpoint join (sep : jsstring) (parts : list jsstring) : jsstring :=
  match parts with
  | [] => []
  | [p] => p
  | p :: rest => p ++ sep ++ join sep rest
  end.

(** [s.split(c)] for a one-character separator; [''.split(',')] is [['']]. *)
Fixpoint split (c : N) (s : jsstring) : list jsstring :=
  match s with
  | [] => [[]]
  | x :: r =>
      if x =? c then [] :: split c r
      else match split c r with
           | [] => [[x]]
           | h :: t => (x :: h) :: t
           end
  end.

(** ** Run-time values and completions *)

(** Only [typeof] and truthiness of a value that is not a string matter to
    the code; numbers are represented by the integers. *)
Inductive jsvalue :=
| JUndefined
| JNull
| JBoolean (b : bool)
| JNumber (z : Z)
| JString (s : jsstring)
| JObject.

(** ToBoolean *)
Definition truthy (v : jsvalue) : bool :=
  match v with
  | JUndefined | JNull => false
  | JBoolean b => b
  | JNumber z => negb (z =? 0)%Z
  | JString s => negb (Nat.eqb (length s) 0)
  | JObject => true
  end.

Inductive jstype := TUndefined | TObject | TBoolean | TNumber | TString.

Definition typeof (v : jsvalue) : jstype :=
  match v with
  | JUndefined => TUndefined
  | JNull => TObject
  | JBoolean _ => TBoolean
  | JNumber _ => TNumber
  | JString _ => TString
  | JObject => TObject
  end.

Definition isTString (t : jstype) : bool :=
  match t with TString => true | _ => false end.

Inductive completion (A : Type) :=
| Normal (a : A)
| Throw (err : string).
Arguments Normal {A} a.
Arguments Throw {A} err.

#[export] Instance completion_ret : MRet completion := fun A a => Normal a.

#[export] Instance completion_bind : MBind completion := fun A B k m =>
  match m with
  | Normal a => k a
  | Throw e => Throw e
  end.

(** [arr.map(f)] for a callback that may throw. *)
Fixpoint arrayMap {A B} (f : A -> completion B) (l : list A) : completion (list B) :=
  match l with
  | [] => Normal []
  | a :: r => b ← f a; bs ← arrayMap f r; Normal (b :: bs)
  end.

(** The receiver of a string method call: anything but a string has no
    such method and the call throws. *)
Definition stringMethod (v : jsvalue) : completion jsstring :=
  match v with
  | JString s => Normal s
  | _ => Throw "TypeError"
  end.

(** The guard every sanitizer starts with:
    [!input || typeof input !== 'string']. *)
Definition notAString (input : jsvalue) : bool :=
  negb (truthy input) || negb (isTString (typeof input)).

(** ** Sanitizers *)

(** [/[\x00-\x08\x0B\x0C\x0E-\x1F\x7F]/] *)
Definition isControl (c : N) : bool :=
  (c <=? 8) || (c =? 11) || (c =? 12) || ((14 <=? c) && (c <=? 31)) || (c =? 127).

(** The six entity replacements of [sanitizeText], in the order of the code. *)
Definition escapeEntities (s : jsstring) : jsstring :=
  replaceChar (ch "/") (js "&#x2F;")
    (replaceChar (ch "'") (js "&#x27;")
      (replaceChar quote (js "&quot;")
        (replaceChar (ch ">") (js "&gt;")
          (replaceChar (ch "<") (js "&lt;")
            (replaceChar (ch "&") (js "&amp;") s))))).

(** Server-side fallback of [sanitizeHtml]: [s.replace(/<[^>]*>/g, '')].
    A ['<'] opens a match only when a ['>'] follows somewhere; the match then
    runs to the first ['>']. *)
Fixpoint stripTagsFrom (inTag : bool) (s : jsstring) : jsstring :=
  match s with
  | [] => []
  | c :: r =>
      if inTag then stripTagsFrom (negb (c =? ch ">")) r
      else if (c =? ch "<") && existsb (N.eqb (ch ">")) r
           then stripTagsFrom true r
           else c :: stripTagsFrom false r
  end.

Definition stripTags (s : jsstring) : jsstring := stripTagsFrom false s.

(** [createPurifyConfig()] yields DOMPurify bound to [window] in a browser and
    [null] on the server.  DOMPurify is an external package: its [sanitize]
    with the allow-list of the code is the parameter [purify]. *)
Definition sanitizeHtml (purify : option (jsstring -> jsstring)) (input : jsvalue)
  : completion jsstring :=
  if notAString input then Normal []
  else
    match purify with
    | Some sanitize => s ← stringMethod input; Normal (sanitize s)
    | None => s ← stringMethod input; Normal (stripTags s)
    end.

Definition sanitizeText (input : jsvalue) : completion jsstring :=
  if notAString input then Normal []
  else
    s ← stringMethod input;
    Normal (substring0 500 (escapeEntities (removeClass isControl (trim s)))).

(** The class of [sanitizeSearchQuery]: less-than, greater-than, double
    quote, apostrophe, ampersand and the control characters of [isControl]. *)
Definition isSearchUnsafe (c : N) : bool :=
  (c =? ch "<") || (c =? ch ">") || (c =? quote) || (c =? ch "'")
  || (c =? ch "&") || isControl c.

Definition sanitizeSearchQuery (input : jsvalue) : completion jsstring :=
  if notAString input then Normal []
  else
    s ← stringMethod input;
    Normal (substring0 100 (removeClass isSearchUnsafe (trim s))).

(** [s.replace(/\.\./g, '')]: matches are found left to right and do not
    overlap. *)
Fixpoint removeDotDot (s : jsstring) : jsstring :=
  match s with
  | [] => []
  | a :: t =>
      match t with
      | [] => [a]
      | b :: r =>
          if (a =? ch ".") && (b =? ch ".") then removeDotDot r
          else a :: removeDotDot t
      end
  end.

(** [/[\/\\]/] *)
Definition isPathSeparator (c : N) : bool := (c =? ch "/") || (c =? 92).

(** The class of [sanitizeFileName]: less-than, greater-than, colon, double
    quote, bar, question mark, star and the code units 0x00 to 0x1F. *)
Definition isFileNameUnsafe (c : N) : bool :=
  (c =? ch "<") || (c =? ch ">") || (c =? ch ":") || (c =? quote)
  || (c =? ch "|") || (c =? ch "?") || (c =? ch "*") || (c <=? 31).

(** [s.replace(/\s+/g, '_')]: every maximal run of white space becomes one
    underscore; [inRun] tells that the previous character was white space. *)
Fixpoint collapseSpaces (inRun : bool) (s : jsstring) : jsstring :=
  match s with
  | [] => []
  | c :: r =>
      if isWhiteSpace c
      then (if inRun then collapseSpaces true r else ch "_" :: collapseSpaces true r)
      else c :: collapseSpaces false r
  end.

Definition sanitizeFileName (input : jsvalue) : completion jsstring :=
  if notAString input then Normal []
  else
    s ← stringMethod input;
    Normal (substring0 255
              (collapseSpaces false
                 (removeClass isFileNameUnsafe
                    (removeClass isPathSeparator
                       (removeDotDot (trim s)))))).

Definition sanitizeTags (input : jsvalue) : completion (list jsstring) :=
  if notAString input then Normal []
  else
    s ← stringMethod input;
    tags ← arrayMap (fun tag => sanitizeText (JString tag)) (split (ch ",") s);
    Normal (firstn 20
              (List.filter (fun tag => (0 <? length tag)%nat && (length tag <=? 50)%nat)
                 tags)).

(** [/^(https?:\/\/|\/)/.test(s)] *)
Definition urlPattern_test (s : jsstring) : bool :=
  startsWith (js "http://") s || startsWith (js "https://") s
  || startsWith (js "/") s.

(** The class of [sanitizeUrl]: less-than, greater-than, double quote,
    apostrophe and backtick. *)
Definition isUrlUnsafe (c : N) : bool :=
  (c =? ch "<") || (c =? ch ">") || (c =? quote) || (c =? ch "'") || (c =? ch "`").

Definition sanitizeUrl (input : jsvalue) : completion jsstring :=
  if notAString input then Normal []
  else
    sanitized ← stringMethod input;
    let sanitized := trim sanitized in
    if negb (urlPattern_test sanitized) then Normal []
    else Normal (removeClass isUrlUnsafe sanitized).

(** ** Validation schemas

    The schemas are built with the external package zod; what the claims are
    about is the function each schema passes to [.transform]. *)

Inductive stringSchema :=
| photoTitle | photoDescription | searchQuery | fileName
| galleryName | photographerName | copyrightNotice.

Definition transform (f : stringSchema) (value : jsvalue) : completion jsstring :=
  match f with
  | photoTitle | galleryName | photographerName => sanitizeText value
  | photoDescription | copyrightNotice =>
      if truthy value then sanitizeText value else Normal []
  | searchQuery =>
      if truthy value then sanitizeSearchQuery value else Normal []
  | fileName => sanitizeFileName value
  end.

(** The transform of the [tags] schema. *)
Definition tagsTransform (value : jsvalue) : completion (list jsstring) :=
  if truthy value then sanitizeTags value else Normal [].

(** ** Content Security Policy *)

(** Object literal with string keys: [Object.entries] lists the properties in
    the order they are written. *)
Definition CSP_DIRECTIVES : list (jsstring * list jsstring) :=
  [ (js "default-src", [js "'self'"]);
    (js "script-src",
      [js "'self'"; js "'unsafe-eval'"; js "'unsafe-inline'"; js "https://vercel.live"]);
    (js "style-src",
      [js "'self'"; js "'unsafe-inline'"; js "https://fonts.googleapis.com"]);
    (js "font-src", [js "'self'"; js "https://fonts.gstatic.com"; js "data:"]);
    (js "img-src", [js "'self'"; js "data:"; js "blob:"; js "https:"]);
    (js "media-src", [js "'self'"; js "blob:"; js "data:"]);
    (js "object-src", [js "'none'"]);
    (js "frame-src", [js "'none'"]);
    (js "base-uri", [js "'self'"]);
    (js "form-action", [js "'self'"]);
    (js "frame-ancestors", [js "'none'"]);
    (js "upgrade-insecure-requests", []) ].

(** The callback of [.map] in [buildCSPHeader]. *)
Definition directiveClause (entry : jsstring * list jsstring) : jsstring :=
  let '(directive, sources) := entry in
  if Nat.eqb (length sources) 0 then directive
  else directive ++ js " " ++ join (js " ") sources.

(** [buildCSPHeader] over an arbitrary directive object. *)
Definition buildCSPHeaderOf (directives : list (jsstring * list jsstring)) : jsstring :=
  join (js "; ") (List.map directiveClause directives).

Definition buildCSPHeader : jsstring := buildCSPHeaderOf CSP_DIRECTIVES.

(** ** Rate limiter *)

Record RateLimitEntry := { count : Z; resetTime : Z }.

(** The private field [attempts] is the whole state of a [RateLimiter]. *)
Abbreviation attemptsMap := (gmap jsstring RateLimitEntry).

(** [isAllowed] once the defaults are filled in; [now] is what [Date.now()]
    returns.  Every entry object is referenced from the map only, so
    [userAttempts.count++] is an update of the map at [identifier]. *)
Definition isAllowed (now : Z) (identifier : jsstring) (maxAttempts windowMs : Z)
    (attempts : attemptsMap) : bool * attemptsMap :=
  match attempts !! identifier with
  | None =>
      (true, <[identifier := {| count := 1; resetTime := now + windowMs |}]> attempts)
  | Some userAttempts =>
      if (now >? resetTime userAttempts)%Z then
        (true, <[identifier := {| count := 1; resetTime := now + windowMs |}]> attempts)
      else if (count userAttempts >=? maxAttempts)%Z then (false, attempts)
      else
        (true, <[identifier := {| count := count userAttempts + 1;
                                  resetTime := resetTime userAttempts |}]> attempts)
  end.

(** [isAllowed(identifier, maxAttempts = 10, windowMs = 60000)] *)
Definition isAllowedCall (now : Z) (identifier : jsstring)
    (maxAttempts windowMs : option Z) (attempts : attemptsMap) : bool * attemptsMap :=
  isAllowed now identifier (default 10%Z maxAttempts) (default 60000%Z windowMs) attempts.

Definition reset (identifier : jsstring) (attempts : attemptsMap) : attemptsMap :=
  delete identifier attempts.

(** A call on a limiter, with the clock reading it sees. *)
Inductive call :=
| CallIsAllowed (now : Z) (identifier : jsstring)
| CallReset (identifier : jsstring).

(** A limiter used with one fixed [maxAttempts] and [windowMs]. *)
Definition runCall (maxAttempts windowMs : Z) (attempts : attemptsMap) (c : call)
  : attemptsMap :=
  match c with
  | CallIsAllowed now identifier =>
      snd (isAllowed now identifier maxAttempts windowMs attempts)
  | CallReset identifier => reset identifier attempts
  end.

Definition runCalls (maxAttempts windowMs : Z) (calls : list call) : attemptsMap :=
  fold_left (runCall maxAttempts windowMs) calls ∅.

(** ** File upload validation *)

Record File := { File_size : Z; File_type : jsstring; File_name : jsstring }.

Record UploadValidation :=
  { isValid : bool; sanitizedName : jsstring; errors : list jsstring }.

Definition allowedTypes : list jsstring :=
  [js "image/jpeg"; js "image/jpg"; js "image/png"; js "image/gif"; js "image/webp"].

Definition sizeError : jsstring := js "File size exceeds 10MB limit".
Definition typeError : jsstring :=
  js "Invalid file type. Only JPEG, PNG, GIF, and WebP are allowed".
Definition nameError : jsstring := js "Invalid file name".

(** [arr.includes(x)] on an array of strings *)
Definition arrayIncludes (arr : list jsstring) (x : jsstring) : bool :=
  existsb (fun y => bool_decide (y = x)) arr.

Definition validateFileUpload (file : File) : completion UploadValidation :=
  let errors := [] in
  let errors :=
    if (File_size file >? 10 * 1024 * 1024)%Z then errors ++ [sizeError] else errors in
  let errors :=
    if negb (arrayIncludes allowedTypes (File_type file))
    then errors ++ [typeError] else errors in
  sanitizedName ← sanitizeFileName (JString (File_name file));
  let errors :=
    if negb (truthy (JString sanitizedName)) then errors ++ [nameError] else errors in
  Normal {| isValid := Nat.eqb (length errors) 0;
            sanitizedName := sanitizedName;
            errors := errors |}.

(** * Definitions used to state the properties *)

(** Turn character literals into their code units. *)
Ltac norm_ch :=
  repeat match goal with
    | |- context [ch ?a] =>
        let v := eval vm_compute in (ch a) in change (ch a) with v
    | H : context [ch ?a] |- _ =>
        let v := eval vm_compute in (ch a) in change (ch a) with v in H
    end.

(** The chain of string operations of [sanitizeText], [sanitizeSearchQuery]
    and [sanitizeFileName], as functions on strings; the lemmas
    [sanitizeText_string] and its siblings relate them to the sanitizers. *)
Definition textPipeline (s : jsstring) : jsstring :=
  substring0 500 (escapeEntities (removeClass isControl (trim s))).

Definition searchPipeline (s : jsstring) : jsstring :=
  substring0 100 (removeClass isSearchUnsafe (trim s)).

Definition fileNamePipeline (s : jsstring) : jsstring :=
  substring0 255
    (collapseSpaces false
       (removeClass isFileNameUnsafe
          (removeClass isPathSeparator (removeDotDot (trim s))))).

(** The fixed-window counter in the words of the specification. *)
Inductive fixedWindow (now : Z) (identifier : jsstring) (maxAttempts windowMs : Z)
    (attempts : attemptsMap) : bool -> attemptsMap -> Prop :=
| fw_install :
    attempts !! identifier = None
    \/ (exists e, attempts !! identifier = Some e /\ (now > resetTime e)%Z) ->
    fixedWindow now identifier maxAttempts windowMs attempts true
      (<[identifier := {| count := 1; resetTime := now + windowMs |}]> attempts)
| fw_deny e :
    attempts !! identifier = Some e ->
    (now <= resetTime e)%Z ->
    (count e >= maxAttempts)%Z ->
    fixedWindow now identifier maxAttempts windowMs attempts false attempts
| fw_increment e :
    attempts !! identifier = Some e ->
    (now <= resetTime e)%Z ->
    (count e < maxAttempts)%Z ->
    fixedWindow now identifier maxAttempts windowMs attempts true
      (<[identifier := {| count := count e + 1; resetTime := resetTime e |}]> attempts).

(** Every stored count lies between 1 and [maxAttempts]. *)
Definition countsInRange (maxAttempts : Z) (attempts : attemptsMap) : Prop :=
  forall identifier e,
    attempts !! identifier = Some e -> (1 <= count e <= maxAttempts)%Z.

(** No white space at the front. *)
Definition startsClean (s : jsstring) : bool :=
  match s with
  | [] => true
  | c :: _ => negb (isWhiteSpace c)
  end.

(** No white space at the back. *)
Definition endsClean (s : jsstring) : bool := startsClean (rev s).

(** The five characters that [escapeEntities] removes for good; the
    ampersand it escapes as well, but every entity brings one back. *)
Definition isMarkup (c : N) : bool :=
  (c =? ch "<") || (c =? ch ">") || (c =? quote) || (c =? ch "'") || (c =? ch "/").

(** The characters of the six entities. *)
Definition entityChars : jsstring := js "&amp;&lt;&gt;&quot;&#x27;&#x2F;".

(** Case analysis on membership in a string literal. *)
Ltac in_literal H :=
  vm_compute in H;
  repeat match type of H with
    | _ \/ _ => destruct H as [H|H]
    | False => destruct H
    | _ = _ => subst
    end.

(** What the transform of a schema computes on a string. *)
Definition pipeline (f : stringSchema) : jsstring -> jsstring :=
  match f with
  | searchQuery => searchPipeline
  | fileName => fileNamePipeline
  | _ => textPipeline
  end.

(** The sanitized values that a second pass of the transform keeps. *)
Definition survivesTransform (f : stringSchema) (o : jsstring) : Prop :=
  match f with
  | searchQuery => trim o = o
  | fileName => includes (js "..") o = false
  | _ => ~ In (ch "&") o /\ trim o = o
  end.

(** ** Further definitions: single-pass escaping, tags, call sequences *)

(** The entity that one character is written as. *)
Definition escapeChar (c : N) : jsstring :=
  if c =? ch "&" then js "&amp;"
  else if c =? ch "<" then js "&lt;"
  else if c =? ch ">" then js "&gt;"
  else if c =? quote then js "&quot;"
  else if c =? ch "'" then js "&#x27;"
  else if c =? ch "/" then js "&#x2F;"
  else [c].

(** Does the tag pattern of the server-side [sanitizeHtml] match somewhere:
    a less-than sign with a greater-than sign anywhere after it. *)
Fixpoint hasTag (s : jsstring) : bool :=
  match s with
  | [] => false
  | c :: r => ((c =? ch "<") && existsb (N.eqb (ch ">")) r) || hasTag r
  end.

(** Successive calls [isAllowed(identifier, maxAttempts, windowMs)] on one
    limiter at the clock readings [times], with the results in order. *)
Fixpoint isAllowedAt (times : list Z) (identifier : jsstring)
    (maxAttempts windowMs : Z) (attempts : attemptsMap) : list bool * attemptsMap :=
  match times with
  | [] => ([], attempts)
  | now :: rest =>
      let r := isAllowed now identifier maxAttempts windowMs attempts in
      let rs := isAllowedAt rest identifier maxAttempts windowMs r.2 in
      (r.1 :: rs.1, rs.2)
  end.

(** ** Mock photo data: [getRandomItems]

    The version with the Fisher-Yates loop.  [rnd i] is the value of
    [Math.floor(Math.random() * (i + 1))] in the iteration with index [i];
    as [Math.random()] lies in the interval from 0 (included) to 1 (excluded)
    it is at most [i]. *)

Section RandomItems.
Context {T : Type} `{EqDecision T}.

(** [[a[i], a[j]] = [a[j], a[i]]] on an array without holes; an index out of
    range would leave the typed array, which is [None] here. *)
Definition swapAt (i j : nat) (a : list T) : option (list T) :=
  x ← a !! i; y ← a !! j; Some (<[j := x]> (<[i := y]> a)).

(** The loop [for (i = start; i > 0; i--)]. *)
Fixpoint shuffleFrom (rnd : nat -> nat) (i : nat) (a : list T) : option (list T) :=
  match i with
  | O => Some a
  | S i' => a' ← swapAt i (rnd i) a; shuffleFrom rnd i' a'
  end.

(** [a.slice(0, e)]: a negative end counts from the back. *)
Definition sliceTo (e : Z) (a : list T) : list T :=
  if (e <? 0)%Z then firstn (Z.to_nat (Z.max (Z.of_nat (length a) + e) 0)) a
  else firstn (Z.to_nat e) a.

(** [Array.from(new Set(a))]: the elements in the order of their first
    occurrence. *)
Definition setFrom (a : list T) : list T :=
  fold_left (fun seen x => if bool_decide (x ∈ seen) then seen else seen ++ [x]) a [].

Definition getRandomItems (rnd : nat -> nat) (array : list T) (count : Z)
  : option (list T) :=
  let arrayCopy := array in
  let maxCount := Z.min count (Z.of_nat (length arrayCopy)) in
  arrayCopy ← shuffleFrom rnd (length arrayCopy - 1) arrayCopy;
  Some (setFrom (sliceTo maxCount arrayCopy)).

End RandomItems.

(** ** Mock photo data: [generateMockPhotoData]

    Every value that depends on [Math.random()] or on the clock is an input:
    [RandomDraws] holds, for one photo, what the random expressions of the
    callback evaluate to. *)

Definition PHOTO_TITLES : list jsstring :=
  [js "Sunset Landscape"; js "Portrait Study"; js "Architecture";
   js "Nature Close-up"; js "Street Photography"; js "Wedding Moment";
   js "Mountain Vista"; js "Urban Nightscape"; js "Wildlife Portrait"].

Definition AVAILABLE_TAGS : list jsstring :=
  [js "landscape"; js "portrait"; js "architecture"; js "nature"; js "wildlife";
   js "street"; js "wedding"; js "professional"; js "studio"; js "macro";
   js "city"; js "building"; js "sunset"; js "night"; js "lights"; js "animal";
   js "urban"; js "candid"; js "love"; js "ceremony"; js "mountain";
   js "adventure"; js "flowers"].

Definition PHOTOGRAPHERS : list jsstring :=
  [js "John Doe"; js "Jane Smith"; js "Mike Johnson"; js "Sarah Wilson";
   js "Alex Brown"; js "Emma Davis"; js "David Chen"; js "Lisa Martinez";
   js "Tom Anderson"].

Record Photo := {
  Photo_id : jsstring;
  Photo_url : jsstring;
  Photo_title : jsstring;
  Photo_tags : list jsstring;
  Photo_likes : Z;
  Photo_downloads : Z;
  Photo_views : Z;
  Photo_photographer : jsstring;
  Photo_dateTaken : jsstring
}.

Record RandomDraws := {
  (** [generateRandomId()] *)
  draw_id : jsstring;
  (** [Math.floor(Math.random() * (max - min + 1))] in the four calls of
      [getRandomNumber], in the order of the callback *)
  draw_tagCount : Z;
  draw_likes : Z;
  draw_downloads : Z;
  draw_views : Z;
  (** the indices drawn by the loop of [getRandomItems] *)
  draw_shuffle : nat -> nat;
  (** [getRandomDate()] *)
  draw_date : jsstring
}.

(** [getRandomNumber(min, max)], with [drawn] for
    [Math.floor(Math.random() * (max - min + 1))]. *)
Definition getRandomNumber (drawn min max : Z) : Z := drawn + min.

(** The decimal digits of a number, as a template literal writes them. *)
Definition decimal (n : nat) : jsstring :=
  js (NilEmpty.string_of_uint (Nat.to_uint n)).

(** The callback of [Array.from] in [generateMockPhotoData]; reading an array
    at an index it does not have gives no string and is [None] here. *)
Definition mockPhoto (draws : RandomDraws) (index : nat) : option Photo :=
  let photoId := draw_id draws in
  let photoUrl := js "/placeholder-" ++ decimal (index + 1) ++ js ".jpg" in
  photoTitle ← PHOTO_TITLES !! (index mod length PHOTO_TITLES)%nat;
  uniqueTags ← getRandomItems (draw_shuffle draws) AVAILABLE_TAGS
                 (getRandomNumber (draw_tagCount draws) 2 4);
  let photoLikes := getRandomNumber (draw_likes draws) 50 350 in
  let photoDownloads := getRandomNumber (draw_downloads draws) 20 150 in
  let photoViews := getRandomNumber (draw_views draws) 500 5000 in
  photoPhotographer ← PHOTOGRAPHERS !! (index mod length PHOTOGRAPHERS)%nat;
  let photoDateTaken := draw_date draws in
  Some {| Photo_id := photoId;
          Photo_url := photoUrl;
          Photo_title := photoTitle;
          Photo_tags := uniqueTags;
          Photo_likes := photoLikes;
          Photo_downloads := photoDownloads;
          Photo_views := photoViews;
          Photo_photographer := photoPhotographer;
          Photo_dateTaken := photoDateTaken |}.

(** [Array.from({ length: count }, callback)]; [draws index] are the draws
    of the callback for [index]. *)
Definition generateMockPhotoData (draws : nat -> RandomDraws) (count : nat)
  : option (list Photo) :=
  mapM (fun index => mockPhoto (draws index) index) (seq 0 count).

(** ** Rate limiter with a limit that need not be whole

    [maxAttempts] is a JavaScript number: the caller may pass a value such as
    1.5.  Here the limit is any rational number; the stored count stays an
    integer, and [userAttempts.count >= maxAttempts] compares the two. *)

Definition isAllowedQ (now : Z) (identifier : jsstring)
    (maxAttempts : QArith_base.Q) (windowMs : Z) (attempts : attemptsMap)
  : bool * attemptsMap :=
  match attempts !! identifier with
  | None =>
      (true, <[identifier := {| count := 1; resetTime := now + windowMs |}]> attempts)
  | Some userAttempts =>
      if (now >? resetTime userAttempts)%Z then
        (true, <[identifier := {| count := 1; resetTime := now + windowMs |}]> attempts)
      else if QArith_base.Qle_bool maxAttempts (QArith_base.inject_Z (count userAttempts))
      then (false, attempts)
      else
        (true, <[identifier := {| count := count userAttempts + 1;
                                  resetTime := resetTime userAttempts |}]> attempts)
  end.

Definition runCallQ (maxAttempts : QArith_base.Q) (windowMs : Z)
    (attempts : attemptsMap) (c : call) : attemptsMap :=
  match c with
  | CallIsAllowed now identifier =>
      snd (isAllowedQ now identifier maxAttempts windowMs attempts)
  | CallReset identifier => reset identifier attempts
  end.

Definition runCallsQ (maxAttempts : QArith_base.Q) (windowMs : Z) (calls : list call)
  : attemptsMap :=
  fold_left (runCallQ maxAttempts windowMs) calls ∅.

Fixpoint isAllowedAtQ (times : list Z) (identifier : jsstring)
    (maxAttempts : QArith_base.Q) (windowMs : Z) (attempts : attemptsMap)
  : list bool * attemptsMap :=
  match times with
  | [] => ([], attempts)
  | now :: rest =>
      let r := isAllowedQ now identifier maxAttempts windowMs attempts in
      let rs := isAllowedAtQ rest identifier maxAttempts windowMs r.2 in
      (r.1 :: rs.1, rs.2)
  end.

(** * Properties *)

(** ** The guard *)

Lemma notAString_string (s : jsstring) :
  notAString (JString s) = Nat.eqb (length s) 0.
Proof. unfold notAString; simpl. rewrite orb_false_r. apply negb_involutive. Qed.

Lemma notAString_other (input : jsvalue) :
  (forall s, input <> JString s) -> notAString input = true.
Proof.
  intros Hns. destruct input as [| |b|z|s|]; unfold notAString; simpl;
    try apply orb_true_r; try reflexivity.
  now destruct (Hns s).
Qed.

(** A sanitizer applied to a string runs its pipeline; the empty string takes
    the early return, which agrees with the pipeline. *)
Lemma guarded_pipeline (f : jsstring -> jsstring) (s : jsstring) :
  f [] = [] ->
  (if notAString (JString s) then Normal []
   else x ← stringMethod (JString s); Normal (f x)) = Normal (f s).
Proof.
  intros Hf. rewrite notAString_string. destruct s as [|c r]; simpl.
  - now rewrite Hf.
  - reflexivity.
Qed.

Lemma sanitizeText_string (s : jsstring) :
  sanitizeText (JString s) = Normal (textPipeline s).
Proof. apply (guarded_pipeline textPipeline). reflexivity. Qed.

Lemma sanitizeSearchQuery_string (s : jsstring) :
  sanitizeSearchQuery (JString s) = Normal (searchPipeline s).
Proof. apply (guarded_pipeline searchPipeline). reflexivity. Qed.

Lemma sanitizeFileName_string (s : jsstring) :
  sanitizeFileName (JString s) = Normal (fileNamePipeline s).
Proof. apply (guarded_pipeline fileNamePipeline). reflexivity. Qed.

(** C3: on null, undefined and every other value that is not a string, each
    of the six sanitizers returns normally (no exception) with its empty
    value: the empty string, and the empty array for [sanitizeTags]. *)
Theorem sanitizers_empty_on_non_string
    (purify : option (jsstring -> jsstring)) (input : jsvalue) :
  (forall s, input <> JString s) ->
  sanitizeHtml purify input = Normal []
  /\ sanitizeText input = Normal []
  /\ sanitizeSearchQuery input = Normal []
  /\ sanitizeFileName input = Normal []
  /\ sanitizeTags input = Normal []
  /\ sanitizeUrl input = Normal [].
Proof.
  intros Hns. pose proof (notAString_other input Hns) as Hg.
  unfold sanitizeHtml, sanitizeText, sanitizeSearchQuery, sanitizeFileName,
    sanitizeTags, sanitizeUrl.
  rewrite Hg. repeat split.
Qed.

Lemma sanitizers_empty_on_null :
  (forall s, JNull <> JString s)
  /\ sanitizeHtml None JNull = Normal []
  /\ sanitizeText JNull = Normal []
  /\ sanitizeSearchQuery JNull = Normal []
  /\ sanitizeFileName JNull = Normal []
  /\ sanitizeTags JNull = Normal []
  /\ sanitizeUrl JNull = Normal [].
Proof.
  split.
  - intros s; discriminate.
  - apply (sanitizers_empty_on_non_string None JNull). intros s; discriminate.
Defined.

(** ** URLs *)

Lemma startsWith_app (p s : jsstring) :
  startsWith p s = true <-> exists rest, s = p ++ rest.
Proof.
  revert s. induction p as [|a p IH]; intros s; simpl.
  - split; [intros _; now exists s | reflexivity].
  - destruct s as [|b s].
    + split; [discriminate | intros [rest H]; discriminate].
    + rewrite andb_true_iff, N.eqb_eq, IH. split.
      * intros [-> [rest ->]]. now exists rest.
      * intros [rest H]. injection H as -> ->. split; [reflexivity | now exists rest].
Qed.

Lemma urlPattern_test_spec (s : jsstring) :
  urlPattern_test s = true <->
  exists rest, s = js "http://" ++ rest \/ s = js "https://" ++ rest \/ s = js "/" ++ rest.
Proof.
  unfold urlPattern_test. rewrite !orb_true_iff, !startsWith_app. split.
  - intros [[[r H]|[r H]]|[r H]]; exists r; tauto.
  - intros [r [H|[H|H]]]; [left; left|left; right|right]; now exists r.
Qed.

Lemma removeClass_spec (cls : N -> bool) (s : jsstring) (c : N) :
  In c (removeClass cls s) <-> In c s /\ cls c = false.
Proof. unfold removeClass. rewrite filter_In, negb_true_iff. reflexivity. Qed.

(** ** Tags *)

Lemma split_nonempty (c : N) (s : jsstring) : split c s <> [].
Proof.
  destruct s as [|x r]; simpl; [discriminate|].
  destruct (x =? c); [discriminate|]. destruct (split c r); discriminate.
Qed.

Lemma join_split (c : N) (s : jsstring) : join [c] (split c s) = s.
Proof.
  induction s as [|x r IH]; [reflexivity|]. simpl.
  destruct (N.eqb_spec x c) as [->|Hne].
  - pose proof (split_nonempty c r) as Hn.
    destruct (split c r) as [|h t]; [contradiction|].
    cbn [join app]. now rewrite <- IH.
  - pose proof (split_nonempty c r) as Hn.
    destruct (split c r) as [|h t]; [contradiction|].
    rewrite <- IH. destruct t; reflexivity.
Qed.

Lemma split_no_separator (c : N) (s : jsstring) :
  Forall (fun part => ~ In c part) (split c s).
Proof.
  induction s as [|x r IH]; simpl.
  - constructor; [intros []|constructor].
  - destruct (N.eqb_spec x c) as [->|Hne].
    + constructor; [intros []|exact IH].
    + destruct (split c r) as [|h t].
      * constructor; [|constructor]. intros [H|[]]. now apply Hne.
      * inversion IH as [|? ? Hh Ht]; subst. constructor; [|exact Ht].
        intros [H|H]; [now apply Hne | now apply Hh].
Qed.

Lemma arrayMap_sanitizeText (parts : list jsstring) :
  arrayMap (fun tag => sanitizeText (JString tag)) parts
  = Normal (List.map textPipeline parts).
Proof.
  induction parts as [|p r IH]; [reflexivity|].
  cbn [arrayMap List.map]. rewrite sanitizeText_string, IH. reflexivity.
Qed.

(** C8: [sanitizeTags] splits its input at the commas, sanitizes every part
    with [sanitizeText], keeps the results that are not empty and at most 50
    characters long, and returns the first 20 of them in their original
    order; equal tags are all kept. *)
Theorem sanitizeTags_first_twenty_survivors (s : jsstring) :
  (exists tags : list jsstring,
      Forall2 (fun part tag => sanitizeText (JString part) = Normal tag)
        (split (ch ",") s) tags
      /\ sanitizeTags (JString s)
         = Normal (firstn 20
                     (List.filter
                        (fun tag => bool_decide (0 < length tag <= 50)%nat) tags)))
  /\ join [ch ","] (split (ch ",") s) = s
  /\ Forall (fun part => ~ In (ch ",") part) (split (ch ",") s)
  /\ sanitizeTags (JString (js "a,b,b,c")) = Normal [js "a"; js "b"; js "b"; js "c"].
Proof.
  split; [|split; [apply join_split | split; [apply split_no_separator | reflexivity]]].
  exists (List.map textPipeline (split (ch ",") s)). split.
  - induction (split (ch ",") s) as [|p r IH]; constructor;
      [apply sanitizeText_string | exact IH].
  - assert (Hflt : forall l : list jsstring,
               List.filter (fun tag => (0 <? length tag)%nat && (length tag <=? 50)%nat) l
               = List.filter (fun tag => bool_decide (0 < length tag <= 50)%nat) l).
    { intros l. apply filter_ext. intros t.
      destruct (Nat.ltb_spec 0 (length t)), (Nat.leb_spec (length t) 50); cbn;
        symmetry; (apply bool_decide_eq_true_2 || apply bool_decide_eq_false_2); lia. }
    unfold sanitizeTags. rewrite notAString_string. destruct s as [|c r].
    + reflexivity.
    + cbn [length Nat.eqb stringMethod mbind completion_bind].
      rewrite arrayMap_sanitizeText. cbn [mbind completion_bind].
      now rewrite Hflt.
Qed.

(** ** File upload *)

Lemma arrayIncludes_spec (arr : list jsstring) (x : jsstring) :
  arrayIncludes arr x = true <-> In x arr.
Proof.
  unfold arrayIncludes. rewrite existsb_exists. split.
  - intros [y [Hin Hy]]. apply bool_decide_eq_true_1 in Hy. now subst.
  - intros Hin. exists x. split; [exact Hin | now apply bool_decide_eq_true_2].
Qed.

(** C5: [validateFileUpload] always returns; its error list is the size
    message when the size exceeds 10 MiB, then the type message when the MIME
    type is not one of the five allowed ones, then the name message when the
    sanitized name is empty, each check contributing whether or not an
    earlier one failed; [isValid] holds exactly when the list is empty, and
    [sanitizedName] is what [sanitizeFileName] returns for the file name. *)
Theorem validateFileUpload_accumulates (file : File) :
  exists r : UploadValidation,
    validateFileUpload file = Normal r
    /\ sanitizeFileName (JString (File_name file)) = Normal (sanitizedName r)
    /\ errors r
       = (if bool_decide (File_size file > 10485760)%Z
          then [js "File size exceeds 10MB limit"] else [])
         ++ (if bool_decide
                  (In (File_type file)
                     [js "image/jpeg"; js "image/jpg"; js "image/png";
                      js "image/gif"; js "image/webp"])
             then []
             else [js "Invalid file type. Only JPEG, PNG, GIF, and WebP are allowed"])
         ++ (if bool_decide (sanitizedName r = [])
             then [js "Invalid file name"] else [])
    /\ (isValid r = true <-> errors r = []).
Proof.
  unfold validateFileUpload. rewrite sanitizeFileName_string.
  cbn [mbind completion_bind]. eexists. split; [reflexivity|].
  cbn [sanitizedName errors isValid]. split; [reflexivity|]. split.
  - change (10 * 1024 * 1024)%Z with 10485760%Z.
    destruct (Z.gtb_spec (File_size file) 10485760) as [Hs|Hs].
    + rewrite (bool_decide_eq_true_2 _ (Z.lt_gt _ _ Hs)).
      destruct (arrayIncludes allowedTypes (File_type file)) eqn:Ht.
      * rewrite bool_decide_eq_true_2 by (now apply arrayIncludes_spec).
        destruct (fileNamePipeline (File_name file)); reflexivity.
      * rewrite bool_decide_eq_false_2
          by (rewrite <- arrayIncludes_spec; fold allowedTypes; congruence).
        destruct (fileNamePipeline (File_name file)); reflexivity.
    + rewrite bool_decide_eq_false_2 by lia.
      destruct (arrayIncludes allowedTypes (File_type file)) eqn:Ht.
      * rewrite bool_decide_eq_true_2 by (now apply arrayIncludes_spec).
        destruct (fileNamePipeline (File_name file)); reflexivity.
      * rewrite bool_decide_eq_false_2
          by (rewrite <- arrayIncludes_spec; fold allowedTypes; congruence).
        destruct (fileNamePipeline (File_name file)); reflexivity.
  - rewrite Nat.eqb_eq. split.
    + intros H. now apply length_zero_iff_nil.
    + intros ->. reflexivity.
Qed.

(** ** Content Security Policy header *)

(** C6: [buildCSPHeader] writes the directives in the order of
    [CSP_DIRECTIVES], a directive without sources as its bare name and any
    other as its name and its sources separated by single spaces, with a
    semicolon and a space between two clauses and nothing after the last;
    the header is the constant below, in which [default-src 'self'] occurs
    exactly once. *)
Theorem buildCSPHeader_serializes :
  (buildCSPHeaderOf [] = []
   /\ forall directive sources rest,
       buildCSPHeaderOf ((directive, sources) :: rest)
       = (directive
          ++ match sources with [] => [] | _ :: _ => js " " ++ join (js " ") sources end)
         ++ match rest with [] => [] | _ :: _ => js "; " ++ buildCSPHeaderOf rest end)
  /\ buildCSPHeader
     = js ("default-src 'self'; "
           ++ "script-src 'self' 'unsafe-eval' 'unsafe-inline' https://vercel.live; "
           ++ "style-src 'self' 'unsafe-inline' https://fonts.googleapis.com; "
           ++ "font-src 'self' https://fonts.gstatic.com data:; "
           ++ "img-src 'self' data: blob: https:; "
           ++ "media-src 'self' blob: data:; "
           ++ "object-src 'none'; frame-src 'none'; base-uri 'self'; "
           ++ "form-action 'self'; frame-ancestors 'none'; "
           ++ "upgrade-insecure-requests")
  /\ occurrences (js "default-src 'self'") buildCSPHeader = 1%nat
  /\ endsWith (js "; ") buildCSPHeader = false
  /\ (length CSP_DIRECTIVES = 12 /\ occurrences (js "; ") buildCSPHeader = 11)%nat.
Proof.
  split; [split; [reflexivity|] | repeat split; vm_compute; reflexivity].
  intros directive sources rest. unfold buildCSPHeaderOf.
  cbn [List.map directiveClause].
  assert (Hclause :
    (if Nat.eqb (length sources) 0 then directive
     else directive ++ js " " ++ join (js " ") sources)
    = directive
      ++ match sources with [] => [] | _ :: _ => js " " ++ join (js " ") sources end).
  { destruct sources; cbn [length Nat.eqb]; [now rewrite app_nil_r | reflexivity]. }
  rewrite Hclause. destruct rest as [|d rest]; cbn [List.map join].
  - now rewrite app_nil_r.
  - reflexivity.
Qed.

(** ** Rate limiter *)

Lemma isAllowed_fixedWindow (now : Z) (identifier : jsstring)
    (maxAttempts windowMs : Z) (attempts : attemptsMap) :
  fixedWindow now identifier maxAttempts windowMs attempts
    (isAllowed now identifier maxAttempts windowMs attempts).1
    (isAllowed now identifier maxAttempts windowMs attempts).2.
Proof.
  unfold isAllowed. destruct (attempts !! identifier) as [e|] eqn:He.
  - destruct (Z.gtb_spec now (resetTime e)) as [Hexp|Hin].
    + apply fw_install. right. exists e. split; [exact He | lia].
    + destruct (Z.geb_spec (count e) maxAttempts) as [Hfull|Hroom].
      * apply (fw_deny _ _ _ _ _ e); [exact He | lia | lia].
      * apply (fw_increment _ _ _ _ _ e); [exact He | lia | lia].
  - apply fw_install. now left.
Qed.

Lemma isAllowed_absent (now : Z) (identifier : jsstring) (maxAttempts windowMs : Z)
    (attempts : attemptsMap) :
  attempts !! identifier = None ->
  isAllowed now identifier maxAttempts windowMs attempts
  = (true, <[identifier := {| count := 1; resetTime := now + windowMs |}]> attempts).
Proof. intros H. unfold isAllowed. now rewrite H. Qed.

Lemma isAllowed_expired (now : Z) (identifier : jsstring) (maxAttempts windowMs : Z)
    (attempts : attemptsMap) e :
  attempts !! identifier = Some e ->
  (now > resetTime e)%Z ->
  isAllowed now identifier maxAttempts windowMs attempts
  = (true, <[identifier := {| count := 1; resetTime := now + windowMs |}]> attempts).
Proof.
  intros H Hexp. unfold isAllowed. rewrite H.
  destruct (Z.gtb_spec now (resetTime e)); [reflexivity | lia].
Qed.

Lemma isAllowed_full (now : Z) (identifier : jsstring) (maxAttempts windowMs : Z)
    (attempts : attemptsMap) e :
  attempts !! identifier = Some e ->
  (now <= resetTime e)%Z ->
  (count e >= maxAttempts)%Z ->
  isAllowed now identifier maxAttempts windowMs attempts = (false, attempts).
Proof.
  intros H Hin Hfull. unfold isAllowed. rewrite H.
  destruct (Z.gtb_spec now (resetTime e)); [lia|].
  destruct (Z.geb_spec (count e) maxAttempts); [reflexivity | lia].
Qed.

Lemma isAllowed_room (now : Z) (identifier : jsstring) (maxAttempts windowMs : Z)
    (attempts : attemptsMap) e :
  attempts !! identifier = Some e ->
  (now <= resetTime e)%Z ->
  (count e < maxAttempts)%Z ->
  isAllowed now identifier maxAttempts windowMs attempts
  = (true, <[identifier := {| count := count e + 1; resetTime := resetTime e |}]> attempts).
Proof.
  intros H Hin Hroom. unfold isAllowed. rewrite H.
  destruct (Z.gtb_spec now (resetTime e)); [lia|].
  destruct (Z.geb_spec (count e) maxAttempts); [lia | reflexivity].
Qed.

(** C2: [isAllowed] is the fixed-window counter of the specification, and
    with [maxAttempts = 2] and [windowMs = 1000] three calls for one fresh
    identifier, the later two no later than 1000 ms after the first, return
    true, true and false, and a call after that window returns true. *)
Theorem isAllowed_fixed_window_counter :
  (forall now identifier maxAttempts windowMs attempts,
      fixedWindow now identifier maxAttempts windowMs attempts
        (isAllowed now identifier maxAttempts windowMs attempts).1
        (isAllowed now identifier maxAttempts windowMs attempts).2)
  /\ (forall (identifier : jsstring) (attempts : attemptsMap) (t0 t1 t2 t3 : Z),
        attempts !! identifier = None ->
        (t1 <= t0 + 1000)%Z -> (t2 <= t0 + 1000)%Z -> (t0 + 1000 < t3)%Z ->
        let r1 := isAllowed t0 identifier 2 1000 attempts in
        let r2 := isAllowed t1 identifier 2 1000 r1.2 in
        let r3 := isAllowed t2 identifier 2 1000 r2.2 in
        let r4 := isAllowed t3 identifier 2 1000 r3.2 in
        (r1.1, r2.1, r3.1, r4.1) = (true, true, false, true)).
Proof.
  split; [exact isAllowed_fixedWindow|].
  intros identifier attempts t0 t1 t2 t3 Hfresh H1 H2 H3. cbv zeta.
  rewrite (isAllowed_absent t0) by exact Hfresh. cbn [fst snd].
  rewrite (isAllowed_room t1 _ _ _ _ {| count := 1; resetTime := t0 + 1000 |})
    by (apply lookup_insert_eq || (cbn; lia)).
  cbn [fst snd count resetTime].
  rewrite (isAllowed_full t2 _ _ _ _ {| count := 1 + 1; resetTime := t0 + 1000 |})
    by (apply lookup_insert_eq || (cbn; lia)).
  cbn [fst snd].
  rewrite (isAllowed_expired t3 _ _ _ _ {| count := 1 + 1; resetTime := t0 + 1000 |})
    by (apply lookup_insert_eq || (cbn; lia)).
  reflexivity.
Qed.

Lemma isAllowed_fixed_window_counter_example :
  let user1 := js "user1" in
  let r1 := isAllowed 0 user1 2 1000 ∅ in
  let r2 := isAllowed 10 user1 2 1000 r1.2 in
  let r3 := isAllowed 1000 user1 2 1000 r2.2 in
  let r4 := isAllowed 1001 user1 2 1000 r3.2 in
  (r1.1, r2.1, r3.1, r4.1) = (true, true, false, true).
Proof.
  apply (proj2 isAllowed_fixed_window_counter (js "user1") ∅ 0 10 1000 1001)%Z.
  - apply lookup_empty.
  - lia.
  - lia.
  - lia.
Defined.

Lemma isAllowed_false_inv (now : Z) (identifier : jsstring) (maxAttempts windowMs : Z)
    (attempts : attemptsMap) :
  (isAllowed now identifier maxAttempts windowMs attempts).1 = false ->
  exists e, attempts !! identifier = Some e
            /\ (now <= resetTime e)%Z /\ (count e >= maxAttempts)%Z.
Proof.
  intros Hden.
  destruct (isAllowed_fixedWindow now identifier maxAttempts windowMs attempts)
    as [Hnew | e He Hin Hfull | e He Hin Hroom] in Hden; try discriminate.
  now exists e.
Qed.

(** C9: a call of [isAllowed] that finds an unexpired entry whose count has
    reached [maxAttempts] returns false and leaves the whole map as it was:
    the entry of the denied identifier and the entry of every other one. *)
Theorem isAllowed_denial_preserves_state (now : Z) (identifier : jsstring)
    (maxAttempts windowMs : Z) (attempts : attemptsMap) (e : RateLimitEntry) :
  attempts !! identifier = Some e ->
  (now <= resetTime e)%Z ->
  (count e >= maxAttempts)%Z ->
  isAllowed now identifier maxAttempts windowMs attempts = (false, attempts)
  /\ (isAllowed now identifier maxAttempts windowMs attempts).2 !! identifier = Some e
  /\ forall other : jsstring,
       (isAllowed now identifier maxAttempts windowMs attempts).2 !! other
       = attempts !! other.
Proof.
  intros He Hin Hfull.
  rewrite (isAllowed_full now identifier maxAttempts windowMs attempts e He Hin Hfull).
  repeat split. exact He.
Qed.

Lemma isAllowed_denial_preserves_state_example :
  let attempts : attemptsMap := {[ js "user1" := {| count := 2; resetTime := 1000 |} ]} in
  isAllowed 500 (js "user1") 2 1000 attempts = (false, attempts)
  /\ (isAllowed 500 (js "user1") 2 1000 attempts).2 !! js "user1"
     = Some {| count := 2; resetTime := 1000 |}
  /\ forall other : jsstring,
       (isAllowed 500 (js "user1") 2 1000 attempts).2 !! other = attempts !! other.
Proof.
  apply (isAllowed_denial_preserves_state 500 (js "user1") 2 1000
           {[ js "user1" := {| count := 2; resetTime := 1000 |} ]}
           {| count := 2; resetTime := 1000 |}).
  - apply lookup_singleton_eq.
  - simpl; lia.
  - simpl; lia.
Defined.

Section FixedLimits.

(** One limiter, always called with the same limits. *)
Variables maxAttempts windowMs : Z.
Hypothesis maxAttempts_positive : (1 <= maxAttempts)%Z.

Lemma countsInRange_insert (attempts : attemptsMap)
    (identifier : jsstring) (e : RateLimitEntry) :
  (1 <= count e <= maxAttempts)%Z ->
  countsInRange maxAttempts attempts ->
  countsInRange maxAttempts (<[identifier := e]> attempts).
Proof.
  intros He Hinv other e'. rewrite lookup_insert.
  case_decide as Heq.
  - intros [= <-]. exact He.
  - apply Hinv.
Qed.

Lemma isAllowed_countsInRange (now : Z) (identifier : jsstring)
    (attempts : attemptsMap) :
  countsInRange maxAttempts attempts ->
  countsInRange maxAttempts (isAllowed now identifier maxAttempts windowMs attempts).2.
Proof.
  intros Hinv.
  destruct (isAllowed_fixedWindow now identifier maxAttempts windowMs attempts)
    as [Hnew | e He Hin Hfull | e He Hin Hroom].
  - apply countsInRange_insert; [cbn; lia | exact Hinv].
  - exact Hinv.
  - apply countsInRange_insert; [|exact Hinv].
    pose proof (Hinv identifier e He). cbn. lia.
Qed.

Lemma reset_countsInRange (identifier : jsstring) (attempts : attemptsMap) :
  countsInRange maxAttempts attempts ->
  countsInRange maxAttempts (reset identifier attempts).
Proof.
  intros Hinv other e. unfold reset. rewrite lookup_delete.
  case_decide; [discriminate | apply Hinv].
Qed.

Lemma runCall_countsInRange (attempts : attemptsMap) (c : call) :
  countsInRange maxAttempts attempts ->
  countsInRange maxAttempts (runCall maxAttempts windowMs attempts c).
Proof.
  intros Hinv. destruct c as [now identifier | identifier]; cbn [runCall].
  - now apply isAllowed_countsInRange.
  - now apply reset_countsInRange.
Qed.

Lemma fold_runCall_countsInRange (calls : list call) (attempts : attemptsMap) :
  countsInRange maxAttempts attempts ->
  countsInRange maxAttempts (fold_left (runCall maxAttempts windowMs) calls attempts).
Proof.
  revert attempts. induction calls as [|c calls IH]; intros attempts Hinv;
    cbn [fold_left].
  - exact Hinv.
  - apply IH. now apply runCall_countsInRange.
Qed.

(** With a whole [maxAttempts] of at least 1 (and any window length), after
    any sequence of [isAllowed] and [reset] calls, at any clock readings,
    every entry in the map has a count between 1 and [maxAttempts]. *)
Theorem runCalls_counts_in_range (calls : list call) :
  forall (identifier : jsstring) (e : RateLimitEntry),
    runCalls maxAttempts windowMs calls !! identifier = Some e ->
    (1 <= count e <= maxAttempts)%Z.
Proof.
  change (countsInRange maxAttempts (runCalls maxAttempts windowMs calls)).
  apply fold_runCall_countsInRange.
  intros identifier e. rewrite lookup_empty. discriminate.
Qed.

End FixedLimits.

Lemma runCalls_counts_in_range_example :
  let calls := [CallIsAllowed 0 (js "a"); CallIsAllowed 1 (js "a");
                CallIsAllowed 2 (js "a"); CallIsAllowed 3 (js "b");
                CallReset (js "b"); CallIsAllowed 5000 (js "a")] in
  (1 <= 2)%Z
  /\ forall (identifier : jsstring) (e : RateLimitEntry),
       runCalls 2 1000 calls !! identifier = Some e -> (1 <= count e <= 2)%Z.
Proof.
  split; [lia|].
  apply (runCalls_counts_in_range 2 1000).
  lia.
Defined.

(** ** File names *)

Lemma removeClass_absent (cls : N -> bool) (s : jsstring) (c : N) :
  cls c = true -> ~ In c (removeClass cls s).
Proof. intros Hc Hin. apply removeClass_spec in Hin. destruct Hin; congruence. Qed.

(** C4: the file name made of a dot, a slash and a dot passes the removal of
    the two-dot sequences untouched, loses its slash in the next step, and
    comes out of [sanitizeFileName] as two dots. *)
Theorem sanitizeFileName_leaves_dot_dot :
  sanitizeFileName (JString (js "./.")) = Normal (js "..")
  /\ includes (js "..") (js "..") = true
  /\ removeDotDot (trim (js "./.")) = js "./."
  /\ removeClass isPathSeparator (js "./.") = js "..".
Proof. repeat split. Qed.

(** ** Fixed points of the sanitizers *)

Lemma firstn_short {A} (n : nat) (x : list A) :
  (length (firstn n x) < n)%nat -> firstn n x = x.
Proof.
  intros H. apply firstn_all2. rewrite length_firstn in H. lia.
Qed.

Lemma firstn_eq_short {A} (n : nat) (x o : list A) :
  firstn n x = o -> (length o < n)%nat -> x = o.
Proof. intros <- H. symmetry. now apply firstn_short. Qed.

Lemma In_firstn {A} (n : nat) (x : list A) (a : A) : In a (firstn n x) -> In a x.
Proof.
  intros H. rewrite <- (firstn_skipn n x). apply in_or_app. now left.
Qed.

Lemma In_trimStart (x : jsstring) (c : N) : In c (trimStart x) -> In c x.
Proof.
  induction x as [|a r IH]; simpl; [tauto|].
  destruct (isWhiteSpace a); [intros H; right; now apply IH | tauto].
Qed.

Lemma In_trim (x : jsstring) (c : N) : In c (trim x) -> In c x.
Proof.
  unfold trim, trimEnd. intros H. apply In_trimStart.
  apply in_rev in H. apply In_trimStart in H. now apply in_rev.
Qed.

Lemma length_trimStart (x : jsstring) : (length (trimStart x) <= length x)%nat.
Proof.
  induction x as [|a r IH]; simpl; [lia|].
  destruct (isWhiteSpace a); simpl; lia.
Qed.

Lemma length_trim (x : jsstring) : (length (trim x) <= length x)%nat.
Proof.
  unfold trim, trimEnd. rewrite length_rev.
  pose proof (length_trimStart (rev (trimStart x))) as H1.
  rewrite length_rev in H1. pose proof (length_trimStart x). lia.
Qed.

Lemma trimStart_clean (x : jsstring) : startsClean (trimStart x) = true.
Proof.
  induction x as [|a r IH]; [reflexivity|]. simpl.
  destruct (isWhiteSpace a) eqn:Ha; [exact IH | simpl; now rewrite Ha].
Qed.

Lemma trimStart_id (x : jsstring) : startsClean x = true -> trimStart x = x.
Proof.
  destruct x as [|a r]; [reflexivity|]. simpl.
  now destruct (isWhiteSpace a).
Qed.

Lemma trimEnd_id (x : jsstring) : endsClean x = true -> trimEnd x = x.
Proof.
  unfold endsClean, trimEnd. intros H. rewrite trimStart_id by exact H.
  apply rev_involutive.
Qed.

Lemma trimEnd_clean (x : jsstring) : endsClean (trimEnd x) = true.
Proof.
  unfold endsClean, trimEnd. rewrite rev_involutive. apply trimStart_clean.
Qed.

Lemma trimStart_snoc (l : jsstring) (c : N) :
  isWhiteSpace c = false -> exists l', trimStart (l ++ [c]) = l' ++ [c].
Proof.
  intros Hc. induction l as [|a r [l' IH]]; simpl.
  - rewrite Hc. now exists [].
  - destruct (isWhiteSpace a); [now exists l' | now exists (a :: r)].
Qed.

Lemma trimEnd_startsClean (x : jsstring) :
  startsClean x = true -> startsClean (trimEnd x) = true.
Proof.
  destruct x as [|c r]; [reflexivity|]. cbn [startsClean].
  rewrite negb_true_iff. intros Hc. unfold trimEnd. cbn [rev].
  destruct (trimStart_snoc (rev r) c Hc) as [l' ->].
  rewrite rev_unit. cbn. now rewrite Hc.
Qed.

Lemma trim_clean (x : jsstring) :
  startsClean (trim x) = true /\ endsClean (trim x) = true.
Proof.
  unfold trim. split.
  - apply trimEnd_startsClean, trimStart_clean.
  - apply trimEnd_clean.
Qed.

Lemma trim_id_iff (x : jsstring) :
  trim x = x <-> startsClean x = true /\ endsClean x = true.
Proof.
  split.
  - intros H. rewrite <- H. apply trim_clean.
  - intros [Hs He]. unfold trim. rewrite trimStart_id by exact Hs.
    now apply trimEnd_id.
Qed.

Lemma trim_no_space (x : jsstring) :
  (forall c, In c x -> isWhiteSpace c = false) -> trim x = x.
Proof.
  intros H. apply trim_id_iff. split.
  - destruct x as [|c r]; [reflexivity|]. cbn. rewrite (H c); [reflexivity | now left].
  - unfold endsClean. destruct (rev x) as [|c r] eqn:Hr; [reflexivity|].
    cbn. rewrite (H c); [reflexivity|]. apply in_rev. rewrite Hr. now left.
Qed.

Lemma trimStart_decompose (s : jsstring) :
  exists lead, s = lead ++ trimStart s /\ forallb isWhiteSpace lead = true.
Proof.
  induction s as [|c r [lead [IH1 IH2]]]; [now exists []|]. cbn [trimStart].
  destruct (isWhiteSpace c) eqn:Hc.
  - exists (c :: lead). cbn. rewrite Hc, IH2. split; [now rewrite <- IH1 | reflexivity].
  - now exists [].
Qed.

(** [trim] removes a run of white space at the front and one at the back,
    nothing else, and leaves no white space at either end. *)
Lemma trim_decompose (s : jsstring) :
  exists lead trail,
    s = lead ++ trim s ++ trail
    /\ forallb isWhiteSpace lead = true
    /\ forallb isWhiteSpace trail = true.
Proof.
  destruct (trimStart_decompose s) as [lead [Hs Hlead]].
  destruct (trimStart_decompose (rev (trimStart s))) as [l [Hr Hl]].
  exists lead, (rev l). split; [|split; [exact Hlead|]].
  - unfold trim, trimEnd. rewrite <- rev_app_distr, <- Hr, rev_involutive. exact Hs.
  - apply forallb_forall. intros x Hx. apply in_rev in Hx.
    rewrite forallb_forall in Hl. now apply Hl.
Qed.

(** C7: [sanitizeUrl] trims its input (it drops the white space before and
    after it and nothing else), returns the empty string when the trimmed
    input does not start with http://, https:// or a slash, and otherwise
    the trimmed input without the characters less-than, greater-than, double
    quote, apostrophe and backtick; the three examples of the specification,
    and inputs with white space around them. *)
Theorem sanitizeUrl_allow_list (s : jsstring) :
  sanitizeUrl (JString s)
  = Normal (if urlPattern_test (trim s)
            then List.filter (fun c => negb (bool_decide (c ∈ [60; 62; 34; 39; 96])))
                   (trim s)
            else [])
  /\ (urlPattern_test (trim s) = true <->
      exists rest, trim s = js "http://" ++ rest \/ trim s = js "https://" ++ rest
                   \/ trim s = js "/" ++ rest)
  /\ sanitizeUrl (JString (js "javascript:alert(1)")) = Normal []
  /\ sanitizeUrl (JString (js "/gallery/42")) = Normal (js "/gallery/42")
  /\ sanitizeUrl (JString (js "https://example.com/x" ++ [quote] ++ js "y"))
     = Normal (js "https://example.com/xy")
  /\ (exists lead trail,
        s = lead ++ trim s ++ trail
        /\ forallb isWhiteSpace lead = true
        /\ forallb isWhiteSpace trail = true
        /\ startsClean (trim s) = true
        /\ endsClean (trim s) = true)
  /\ sanitizeUrl (JString (js " /gallery/42")) = Normal (js "/gallery/42")
  /\ sanitizeUrl (JString ([9; 32] ++ js "https://example.com/a b" ++ [32; 10; 160]))
     = Normal (js "https://example.com/a b")
  /\ sanitizeUrl (JString (js "  javascript:alert(1) ")) = Normal []
  /\ sanitizeUrl (JString (js "x /gallery/42")) = Normal [].
Proof.
  split; [|split; [apply urlPattern_test_spec |]].
  2: { split; [reflexivity|]. split; [reflexivity|]. split; [reflexivity|].
       split; [|repeat split].
       destruct (trim_decompose s) as [lead [trail [H1 [H2 H3]]]].
       destruct (trim_clean s) as [H4 H5]. exists lead, trail. tauto. }
  unfold sanitizeUrl. rewrite notAString_string. destruct s as [|c r].
  - reflexivity.
  - cbn [length Nat.eqb stringMethod mbind completion_bind].
    destruct (urlPattern_test (trim (c :: r))); cbn [negb]; [|reflexivity].
    f_equal. unfold removeClass. apply filter_ext. intros x. f_equal.
    unfold isUrlUnsafe, quote. norm_ch.
    destruct (N.eqb_spec x 60) as [->|?]; [reflexivity|].
    destruct (N.eqb_spec x 62) as [->|?]; [reflexivity|].
    destruct (N.eqb_spec x 34) as [->|?]; [reflexivity|].
    destruct (N.eqb_spec x 39) as [->|?]; [reflexivity|].
    destruct (N.eqb_spec x 96) as [->|?]; [reflexivity|].
    rewrite bool_decide_eq_false_2; [reflexivity|].
    rewrite !elem_of_cons, elem_of_nil. tauto.
Qed.

Lemma removeClass_id (cls : N -> bool) (x : jsstring) :
  (forall c, In c x -> cls c = false) -> removeClass cls x = x.
Proof.
  intros H. unfold removeClass. induction x as [|a r IH]; [reflexivity|].
  cbn [List.filter]. rewrite (H a) by now left. cbn. f_equal.
  apply IH. intros c Hc. apply H. now right.
Qed.

Lemma replaceChar_id (c : N) (rep x : jsstring) :
  ~ In c x -> replaceChar c rep x = x.
Proof.
  intros H. unfold replaceChar. induction x as [|a r IH]; [reflexivity|].
  cbn [flat_map]. destruct (N.eqb_spec a c) as [->|Hne].
  - exfalso. apply H. now left.
  - cbn. f_equal. apply IH. intros Hc. apply H. now right.
Qed.

Lemma In_replaceChar (c : N) (rep x : jsstring) (d : N) :
  In d (replaceChar c rep x) -> In d rep \/ (In d x /\ d <> c).
Proof.
  unfold replaceChar. rewrite in_flat_map. intros [a [Ha Hd]].
  destruct (N.eqb_spec a c) as [->|Hne].
  - now left.
  - destruct Hd as [<-|[]]. right. now split.
Qed.

Lemma length_replaceChar_ge (c : N) (rep x : jsstring) :
  (1 <= length rep)%nat -> (length x <= length (replaceChar c rep x))%nat.
Proof.
  intros Hrep. unfold replaceChar. induction x as [|a r IH]; [simpl; lia|].
  cbn [flat_map]. rewrite length_app. destruct (a =? c); simpl length; lia.
Qed.

Lemma length_replaceChar_gt (c : N) (rep x : jsstring) :
  (2 <= length rep)%nat -> In c x ->
  (length x < length (replaceChar c rep x))%nat.
Proof.
  intros Hrep Hin. induction x as [|a r IH]; [destruct Hin|].
  unfold replaceChar. cbn [flat_map]. fold (replaceChar c rep r).
  rewrite length_app.
  pose proof (length_replaceChar_ge c rep r ltac:(lia)) as Hge.
  destruct (N.eqb_spec a c) as [->|Hne].
  - simpl length. lia.
  - destruct Hin as [->|Hin]; [congruence|]. specialize (IH Hin). simpl length. lia.
Qed.

Lemma replaceChar_fixed (c : N) (rep x : jsstring) :
  (2 <= length rep)%nat -> replaceChar c rep x = x -> ~ In c x.
Proof.
  intros Hrep Heq Hin. pose proof (length_replaceChar_gt c rep x Hrep Hin) as H.
  rewrite Heq in H. lia.
Qed.

Lemma startsClean_replaceChar (c : N) (rep x : jsstring) :
  rep <> [] -> startsClean rep = true -> startsClean x = true ->
  startsClean (replaceChar c rep x) = true.
Proof.
  intros Hne Hrep Hx. destruct x as [|a r]; [reflexivity|].
  unfold replaceChar. cbn [flat_map]. destruct (a =? c).
  - destruct rep as [|e rep']; [contradiction | exact Hrep].
  - exact Hx.
Qed.

Lemma endsClean_app (a b : jsstring) : b <> [] -> endsClean (a ++ b) = endsClean b.
Proof.
  intros Hb. unfold endsClean. rewrite rev_app_distr.
  destruct (rev b) as [|e t] eqn:Hr; [|reflexivity].
  exfalso. apply Hb. rewrite <- (rev_involutive b), Hr. reflexivity.
Qed.

Lemma endsClean_replaceChar (c : N) (rep x : jsstring) :
  rep <> [] -> endsClean rep = true -> endsClean x = true ->
  endsClean (replaceChar c rep x) = true.
Proof.
  intros Hne Hrep. destruct x as [|d init _] using rev_ind; [reflexivity|].
  intros Hx. unfold replaceChar. rewrite flat_map_app. cbn [flat_map].
  rewrite app_nil_r. rewrite endsClean_app in Hx by discriminate.
  destruct (d =? c).
  - now rewrite endsClean_app.
  - now rewrite endsClean_app by discriminate.
Qed.

Lemma In_escapeEntities (x : jsstring) (d : N) :
  In d (escapeEntities x) ->
  isMarkup d = false /\ (In d entityChars \/ In d x).
Proof.
  unfold escapeEntities. intros H.
  repeat (apply In_replaceChar in H; destruct H as [H | [H ?]]);
    try (in_literal H;
         (split;
          [reflexivity
          | left; vm_compute; repeat (first [left; reflexivity | right])])).
  split; [|now right].
  unfold isMarkup, quote in *. norm_ch.
  repeat match goal with
    | Hne : d <> ?k |- _ => apply N.eqb_neq in Hne; rewrite ?Hne; clear Hne
    end.
  reflexivity.
Qed.

Lemma escapeEntities_ampersand_only (x : jsstring) :
  (forall d, In d x -> isMarkup d = false) ->
  escapeEntities x = replaceChar (ch "&") (js "&amp;") x.
Proof.
  intros Hx. unfold escapeEntities.
  assert (Hy : forall d, In d (replaceChar (ch "&") (js "&amp;") x) -> isMarkup d = false).
  { intros d Hd. apply In_replaceChar in Hd. destruct Hd as [Hd | [Hd _]].
    - in_literal Hd; reflexivity.
    - now apply Hx. }
  assert (Hno : forall c, isMarkup c = true ->
                 ~ In c (replaceChar (ch "&") (js "&amp;") x)).
  { intros c Hc Hin. apply Hy in Hin. congruence. }
  rewrite (replaceChar_id (ch "<")) by (now apply Hno).
  rewrite (replaceChar_id (ch ">")) by (now apply Hno).
  rewrite (replaceChar_id quote) by (now apply Hno).
  rewrite (replaceChar_id (ch "'")) by (now apply Hno).
  rewrite (replaceChar_id (ch "/")) by (now apply Hno).
  reflexivity.
Qed.

Lemma textPipeline_chars (s : jsstring) (d : N) :
  In d (textPipeline s) -> isMarkup d = false /\ isControl d = false.
Proof.
  unfold textPipeline, substring0. intros H. apply In_firstn in H.
  apply In_escapeEntities in H. destruct H as [Hm [H|H]].
  - split; [exact Hm|]. in_literal H; reflexivity.
  - split; [exact Hm|]. now apply removeClass_spec in H.
Qed.

(** A string without markup and control characters, shorter than the cap,
    is kept by the text pipeline exactly when it has no ampersand and no
    white space at either end. *)
Lemma textPipeline_fixed_iff (o : jsstring) :
  (forall d, In d o -> isMarkup d = false /\ isControl d = false) ->
  (length o < 500)%nat ->
  textPipeline o = o <-> ~ In (ch "&") o /\ trim o = o.
Proof.
  intros Hchars Hlen. unfold textPipeline, substring0.
  rewrite removeClass_id by (intros c Hc; now apply Hchars, In_trim).
  rewrite escapeEntities_ampersand_only by (intros c Hc; now apply Hchars, In_trim).
  split.
  - intros H. apply firstn_eq_short in H; [|exact Hlen].
    assert (Htrim : trim o = o).
    { apply trim_id_iff. rewrite <- H at 1 2. destruct (trim_clean o) as [Hs He].
      split.
      - apply startsClean_replaceChar; [discriminate | reflexivity | exact Hs].
      - apply endsClean_replaceChar; [discriminate | reflexivity | exact He]. }
    split; [|exact Htrim]. rewrite Htrim in H.
    apply (replaceChar_fixed _ (js "&amp;")); [simpl; lia | exact H].
  - intros [Hamp Htrim]. rewrite Htrim, replaceChar_id by exact Hamp.
    apply firstn_all2. lia.
Qed.

Lemma searchPipeline_chars (s : jsstring) (d : N) :
  In d (searchPipeline s) -> isSearchUnsafe d = false.
Proof.
  unfold searchPipeline, substring0. intros H. apply In_firstn in H.
  now apply removeClass_spec in H.
Qed.

Lemma searchPipeline_fixed_iff (o : jsstring) :
  (forall d, In d o -> isSearchUnsafe d = false) ->
  (length o <= 100)%nat ->
  searchPipeline o = o <-> trim o = o.
Proof.
  intros Hchars Hlen. unfold searchPipeline, substring0.
  rewrite removeClass_id by (intros c Hc; now apply Hchars, In_trim).
  rewrite firstn_all2; [reflexivity|]. pose proof (length_trim o). lia.
Qed.

(** Induction on strings two characters at a time, as [removeDotDot] reads
    them. *)
Lemma jsstring_pair_ind (P : jsstring -> Prop) :
  P [] -> (forall a, P [a]) ->
  (forall a b r, P r -> P (b :: r) -> P (a :: b :: r)) ->
  forall s, P s.
Proof.
  intros H0 H1 H2 s.
  assert (H : P s /\ forall a, P (a :: s)); [|tauto].
  induction s as [|b r [IHr IHbr]]; [split; [exact H0 | exact H1]|].
  split; [apply IHbr|]. intros a. apply H2; [exact IHr | apply IHbr].
Qed.

Lemma In_removeDotDot (x : jsstring) (d : N) : In d (removeDotDot x) -> In d x.
Proof.
  induction x as [|a|a b r IHr IHbr] using jsstring_pair_ind; [tauto | tauto |].
  cbn [removeDotDot]. destruct ((a =? ch ".") && (b =? ch ".")).
  - intros H. right; right. now apply IHr.
  - intros [H|H]; [now left | right; now apply IHbr].
Qed.

Lemma length_removeDotDot (x : jsstring) :
  (length (removeDotDot x) <= length x)%nat.
Proof.
  induction x as [|a|a b r IHr IHbr] using jsstring_pair_ind; [simpl; lia | simpl; lia |].
  cbn [removeDotDot]. destruct ((a =? ch ".") && (b =? ch ".")).
  - simpl length. lia.
  - simpl length in *. lia.
Qed.

Lemma removeDotDot_fixed_iff (x : jsstring) :
  removeDotDot x = x <-> includes (js "..") x = false.
Proof.
  induction x as [|a|a b r IHr IHbr] using jsstring_pair_ind.
  - split; reflexivity.
  - split; [intros _|reflexivity]. cbn. now rewrite andb_false_r.
  - cbn [removeDotDot].
    change (includes (js "..") (a :: b :: r))
      with (((ch "." =? a) && ((ch "." =? b) && true)) || includes (js "..") (b :: r)).
    rewrite andb_true_r, (N.eqb_sym (ch ".") a), (N.eqb_sym (ch ".") b).
    destruct ((a =? ch ".") && (b =? ch ".")); cbn [orb].
    + split; [|discriminate]. intros H.
      pose proof (length_removeDotDot r) as Hl. rewrite H in Hl. simpl in Hl. lia.
    + split.
      * intros [= H]. apply IHbr. exact H.
      * intros H. f_equal. apply IHbr. exact H.
Qed.

Lemma In_collapseSpaces (b : bool) (x : jsstring) (d : N) :
  In d (collapseSpaces b x) -> d = ch "_" \/ (In d x /\ isWhiteSpace d = false).
Proof.
  revert b. induction x as [|a r IH]; intros b; cbn [collapseSpaces]; [intros []|].
  destruct (isWhiteSpace a) eqn:Ha.
  - destruct b.
    + intros H. apply IH in H. destruct H as [H|[H1 H2]]; [now left | right; split; [now right | exact H2]].
    + intros [H|H]; [now left|]. apply IH in H.
      destruct H as [H|[H1 H2]]; [now left | right; split; [now right | exact H2]].
  - intros [H|H]; [subst; right; split; [now left | exact Ha]|].
    apply IH in H. destruct H as [H|[H1 H2]]; [now left | right; split; [now right | exact H2]].
Qed.

Lemma collapseSpaces_id (b : bool) (x : jsstring) :
  (forall c, In c x -> isWhiteSpace c = false) -> collapseSpaces b x = x.
Proof.
  revert b. induction x as [|a r IH]; intros b H; [reflexivity|].
  cbn [collapseSpaces]. rewrite (H a) by now left. f_equal.
  apply IH. intros c Hc. apply H. now right.
Qed.

Lemma fileNamePipeline_chars (s : jsstring) (d : N) :
  In d (fileNamePipeline s) ->
  isWhiteSpace d = false /\ isPathSeparator d = false /\ isFileNameUnsafe d = false.
Proof.
  unfold fileNamePipeline, substring0. intros H. apply In_firstn in H.
  apply In_collapseSpaces in H. destruct H as [->|[H Hws]]; [repeat split|].
  apply removeClass_spec in H. destruct H as [H Hu].
  apply removeClass_spec in H. destruct H as [_ Hp]. now repeat split.
Qed.

Lemma fileNamePipeline_fixed_iff (o : jsstring) :
  (forall d, In d o ->
     isWhiteSpace d = false /\ isPathSeparator d = false /\ isFileNameUnsafe d = false) ->
  (length o <= 255)%nat ->
  fileNamePipeline o = o <-> includes (js "..") o = false.
Proof.
  intros Hchars Hlen. unfold fileNamePipeline, substring0.
  rewrite trim_no_space by (intros c Hc; now apply Hchars).
  rewrite (removeClass_id isPathSeparator)
    by (intros c Hc; now apply Hchars, In_removeDotDot).
  rewrite (removeClass_id isFileNameUnsafe)
    by (intros c Hc; now apply Hchars, In_removeDotDot).
  rewrite collapseSpaces_id by (intros c Hc; now apply Hchars, In_removeDotDot).
  rewrite firstn_all2 by (pose proof (length_removeDotDot o); lia).
  apply removeDotDot_fixed_iff.
Qed.

(** ** Reapplying a schema's transform *)

Lemma transform_string (f : stringSchema) (x : jsstring) :
  transform f (JString x) = Normal (pipeline f x).
Proof.
  destruct f; cbn [transform pipeline];
    rewrite ?sanitizeText_string, ?sanitizeSearchQuery_string,
      ?sanitizeFileName_string;
    try reflexivity; destruct x; reflexivity.
Qed.

Lemma transform_photoTitle (value : jsvalue) :
  transform photoTitle value = sanitizeText value.
Proof. reflexivity. Qed.

Lemma pipeline_fixed_iff (f : stringSchema) (s : jsstring) :
  (length (pipeline f s) < 500)%nat ->
  pipeline f (pipeline f s) = pipeline f s <-> survivesTransform f (pipeline f s).
Proof.
  intros Hlen.
  destruct f; cbn [pipeline survivesTransform] in *;
    try (apply textPipeline_fixed_iff; [apply textPipeline_chars | exact Hlen]).
  - apply searchPipeline_fixed_iff; [apply searchPipeline_chars|].
    unfold searchPipeline, substring0. apply firstn_le_length.
  - apply fileNamePipeline_fixed_iff; [apply fileNamePipeline_chars|].
    unfold fileNamePipeline, substring0. apply firstn_le_length.
Qed.

(** C1, as the code has it: let [o] be what a string schema's transform
    returns for a string, shorter than 500 characters.  The transform
    returns [o] again for [o] exactly when, for the schemas that use
    [sanitizeText] (photoTitle, whose transform is [sanitizeText] itself,
    photoDescription, galleryName, photographerName, copyrightNotice), [o]
    has no ampersand and no white space at either end; for searchQuery, [o]
    has no white space at either end; for fileName, [o] has no two
    consecutive dots. *)
Theorem transform_idempotent_iff (f : stringSchema) (s o : jsstring) :
  transform f (JString s) = Normal o ->
  (length o < 500)%nat ->
  transform f (JString o) = Normal o <-> survivesTransform f o.
Proof.
  rewrite !transform_string. intros [= <-] Hlen.
  rewrite <- (pipeline_fixed_iff f s Hlen).
  split; [now intros [= H] | now intros ->].
Qed.

Lemma transform_idempotent_iff_example :
  transform photoTitle (JString (js " Sunset Landscape ")) = Normal (js "Sunset Landscape")
  /\ (length (js "Sunset Landscape") < 500)%nat
  /\ (transform photoTitle (JString (js "Sunset Landscape")) = Normal (js "Sunset Landscape")
      <-> survivesTransform photoTitle (js "Sunset Landscape")).
Proof.
  split; [reflexivity|]. split; [simpl; lia|].
  apply (transform_idempotent_iff photoTitle (js " Sunset Landscape ")).
  - reflexivity.
  - simpl; lia.
Defined.

(** Counterexample to C1 as the specification states it: the lone ampersand
    is sanitized to an entity five characters long, and sanitizing that
    entity escapes its ampersand once more.  The transforms of searchQuery
    and fileName change their own output too. *)
Lemma sanitizeText_escapes_twice :
  sanitizeText (JString (js "&")) = Normal (js "&amp;")
  /\ (length (js "&amp;") < 500)%nat
  /\ sanitizeText (JString (js "&amp;")) = Normal (js "&amp;amp;")
  /\ ~ (forall s o : jsstring,
          sanitizeText (JString s) = Normal o -> (length o < 500)%nat ->
          sanitizeText (JString o) = Normal o)
  /\ transform photoTitle (JString (js "&amp;")) <> Normal (js "&amp;")
  /\ (transform searchQuery (JString (1 :: js " a")) = Normal (js " a")
      /\ transform searchQuery (JString (js " a")) = Normal (js "a"))
  /\ (transform fileName (JString (js "./.")) = Normal (js "..")
      /\ transform fileName (JString (js "..")) = Normal []).
Proof.
  repeat split; try (simpl; lia).
  - intros H. specialize (H (js "&") (js "&amp;") eq_refl ltac:(simpl; lia)).
    vm_compute in H. discriminate.
  - intros H. vm_compute in H. discriminate.
Qed.

(** The parts of C4 that hold: no output of [sanitizeFileName] contains a
    slash or a backslash, and the traversal path of the specification loses
    its dots as well. *)
Lemma sanitizeFileName_no_separator (s out : jsstring) :
  sanitizeFileName (JString s) = Normal out ->
  ~ In (ch "/") out /\ ~ In 92 out.
Proof.
  rewrite sanitizeFileName_string. intros [= <-].
  split; intros H; apply fileNamePipeline_chars in H;
    destruct H as [_ [H _]]; vm_compute in H; discriminate.
Qed.

Lemma sanitizeFileName_etc_passwd :
  sanitizeFileName (JString (js "../../etc/passwd")) = Normal (js "etcpasswd")
  /\ includes (js "..") (js "etcpasswd") = false
  /\ includes (js "/") (js "etcpasswd") = false.
Proof. repeat split. Qed.


(** * Further properties of the code *)

(** ** What the sanitizers return *)

(** A sanitizer returns the empty string for a value that is not a string
    and its pipeline for a string. *)
Lemma guarded_cases (input : jsvalue) :
  (notAString input = true /\ forall s, input <> JString s)
  \/ exists s, input = JString s.
Proof.
  destruct input as [| |b|z|s|]; try (left; split;
    [apply notAString_other|]; intros s'; discriminate).
  right. now exists s.
Qed.

Lemma sanitizeText_result (input : jsvalue) :
  sanitizeText input = Normal [] \/
  exists s, input = JString s /\ sanitizeText input = Normal (textPipeline s).
Proof.
  destruct (guarded_cases input) as [[Hg _]|[s ->]].
  - left. unfold sanitizeText. now rewrite Hg.
  - right. exists s. split; [reflexivity | apply sanitizeText_string].
Qed.

Lemma sanitizeSearchQuery_result (input : jsvalue) :
  sanitizeSearchQuery input = Normal [] \/
  exists s, input = JString s /\ sanitizeSearchQuery input = Normal (searchPipeline s).
Proof.
  destruct (guarded_cases input) as [[Hg _]|[s ->]].
  - left. unfold sanitizeSearchQuery. now rewrite Hg.
  - right. exists s. split; [reflexivity | apply sanitizeSearchQuery_string].
Qed.

Lemma sanitizeFileName_result (input : jsvalue) :
  sanitizeFileName input = Normal [] \/
  exists s, input = JString s /\ sanitizeFileName input = Normal (fileNamePipeline s).
Proof.
  destruct (guarded_cases input) as [[Hg _]|[s ->]].
  - left. unfold sanitizeFileName. now rewrite Hg.
  - right. exists s. split; [reflexivity | apply sanitizeFileName_string].
Qed.

(** X1: for every value, [sanitizeText] returns without an exception a string
    of at most 500 characters that contains no less-than sign, greater-than
    sign, double quote, apostrophe or slash and none of the control
    characters it strips. *)
Theorem sanitizeText_output_safe (input : jsvalue) :
  exists out : jsstring,
    sanitizeText input = Normal out
    /\ (length out <= 500)%nat
    /\ forall c, In c out ->
         ~ In c [ch "<"; ch ">"; quote; ch "'"; ch "/"] /\ isControl c = false.
Proof.
  destruct (sanitizeText_result input) as [H|[s [_ H]]].
  - exists []. split; [exact H|]. split; [simpl; lia | intros c []].
  - exists (textPipeline s). split; [exact H|]. split.
    + unfold textPipeline, substring0. apply firstn_le_length.
    + intros c Hc. apply textPipeline_chars in Hc. destruct Hc as [Hm Hctl].
      split; [|exact Hctl]. intros Hin. in_literal Hin; vm_compute in Hm; discriminate.
Qed.

Lemma replaceChar_app (c : N) (rep a b : jsstring) :
  replaceChar c rep (a ++ b) = replaceChar c rep a ++ replaceChar c rep b.
Proof. unfold replaceChar. apply flat_map_app. Qed.

Lemma escapeEntities_app (a b : jsstring) :
  escapeEntities (a ++ b) = escapeEntities a ++ escapeEntities b.
Proof. unfold escapeEntities. now rewrite !replaceChar_app. Qed.

Lemma escapeEntities_char (c : N) : escapeEntities [c] = escapeChar c.
Proof.
  unfold escapeChar, quote. norm_ch.
  destruct (N.eqb_spec c 38) as [->|H1]; [reflexivity|].
  destruct (N.eqb_spec c 60) as [->|H2]; [reflexivity|].
  destruct (N.eqb_spec c 62) as [->|H3]; [reflexivity|].
  destruct (N.eqb_spec c 34) as [->|H4]; [reflexivity|].
  destruct (N.eqb_spec c 39) as [->|H5]; [reflexivity|].
  destruct (N.eqb_spec c 47) as [->|H6]; [reflexivity|].
  unfold escapeEntities, quote. norm_ch.
  rewrite (replaceChar_id 38) by (intros [Hin|[]]; congruence).
  rewrite (replaceChar_id 60) by (intros [Hin|[]]; congruence).
  rewrite (replaceChar_id 62) by (intros [Hin|[]]; congruence).
  rewrite (replaceChar_id 34) by (intros [Hin|[]]; congruence).
  rewrite (replaceChar_id 39) by (intros [Hin|[]]; congruence).
  rewrite (replaceChar_id 47) by (intros [Hin|[]]; congruence).
  reflexivity.
Qed.

(** X2: the six successive replacements of [sanitizeText] amount to one pass
    that writes every character as its entity: no entity is escaped a second
    time by a later replacement.  So [sanitizeText] of a string is the first
    500 characters of the character-wise escaping of the trimmed string
    without its control characters. *)
Theorem sanitizeText_single_pass (s : jsstring) :
  escapeEntities s = flat_map escapeChar s
  /\ sanitizeText (JString s)
     = Normal (firstn 500 (flat_map escapeChar (removeClass isControl (trim s)))).
Proof.
  assert (Hesc : forall x, escapeEntities x = flat_map escapeChar x).
  { induction x as [|c r IH]; [reflexivity|].
    change (c :: r) with ([c] ++ r).
    rewrite escapeEntities_app, escapeEntities_char, IH. reflexivity. }
  split; [apply Hesc|].
  rewrite sanitizeText_string. unfold textPipeline, substring0. now rewrite Hesc.
Qed.

(** X3: a string of at most 500 characters without white space at its ends,
    without control characters and without any of the six escaped characters
    is returned by [sanitizeText] as it is. *)
Theorem sanitizeText_plain_unchanged (s : jsstring) :
  trim s = s ->
  (length s <= 500)%nat ->
  (forall c, In c s ->
     isControl c = false
     /\ ~ In c [ch "&"; ch "<"; ch ">"; quote; ch "'"; ch "/"]) ->
  sanitizeText (JString s) = Normal s.
Proof.
  intros Htrim Hlen Hchars. rewrite sanitizeText_string.
  unfold textPipeline, substring0. rewrite Htrim.
  rewrite removeClass_id by (intros c Hc; now apply Hchars).
  rewrite escapeEntities_ampersand_only.
  - rewrite replaceChar_id; [now rewrite firstn_all2|].
    intros Hin. apply Hchars in Hin. destruct Hin as [_ Hin]. apply Hin. now left.
  - intros c Hc. apply Hchars in Hc. destruct Hc as [_ Hc].
    unfold isMarkup, quote in *. norm_ch.
    destruct (N.eqb_spec c 60) as [->|?]; [exfalso; apply Hc; cbn; tauto|].
    destruct (N.eqb_spec c 62) as [->|?]; [exfalso; apply Hc; cbn; tauto|].
    destruct (N.eqb_spec c 34) as [->|?]; [exfalso; apply Hc; cbn; tauto|].
    destruct (N.eqb_spec c 39) as [->|?]; [exfalso; apply Hc; cbn; tauto|].
    destruct (N.eqb_spec c 47) as [->|?]; [exfalso; apply Hc; cbn; tauto|].
    reflexivity.
Qed.

Lemma sanitizeText_plain_unchanged_example :
  sanitizeText (JString (js "Mountain Vista 2024")) = Normal (js "Mountain Vista 2024").
Proof.
  apply sanitizeText_plain_unchanged.
  - reflexivity.
  - simpl; lia.
  - intros c Hc. in_literal Hc;
      (split; [reflexivity | intros Hin; in_literal Hin; discriminate]).
Defined.

(** X4: for every value, [sanitizeSearchQuery] returns without an exception a
    string of at most 100 characters, made of characters of the input only,
    and free of less-than sign, greater-than sign, double quote, apostrophe,
    ampersand and the stripped control characters. *)
Theorem sanitizeSearchQuery_output_safe (input : jsvalue) :
  exists out : jsstring,
    sanitizeSearchQuery input = Normal out
    /\ (length out <= 100)%nat
    /\ (forall c, In c out ->
          ~ In c [ch "<"; ch ">"; quote; ch "'"; ch "&"] /\ isControl c = false)
    /\ (forall c, In c out -> exists s, input = JString s /\ In c s).
Proof.
  destruct (sanitizeSearchQuery_result input) as [H|[s [-> H]]].
  - exists []. split; [exact H|]. split; [simpl; lia|]. split; intros c [].
  - exists (searchPipeline s). split; [exact H|]. split; [|split].
    + unfold searchPipeline, substring0. apply firstn_le_length.
    + intros c Hc. apply searchPipeline_chars in Hc.
      unfold isSearchUnsafe in Hc. rewrite !orb_false_iff in Hc.
      destruct Hc as [[[[[H1 H2] H3] H4] H5] H6]. split; [|exact H6].
      apply N.eqb_neq in H1, H2, H3, H4, H5.
      intros [<-|[<-|[<-|[<-|[<-|[]]]]]]; congruence.
    + intros c Hc. exists s. split; [reflexivity|].
      unfold searchPipeline, substring0 in Hc. apply In_firstn in Hc.
      apply removeClass_spec in Hc. destruct Hc as [Hc _]. now apply In_trim.
Qed.

(** X5: for every value, [sanitizeFileName] returns without an exception a
    name of at most 255 characters that has no white space, no slash or
    backslash, none of the characters less-than, greater-than, colon, double
    quote, bar, question mark and star, and no control character. *)
Theorem sanitizeFileName_output_safe (input : jsvalue) :
  exists out : jsstring,
    sanitizeFileName input = Normal out
    /\ (length out <= 255)%nat
    /\ forall c, In c out ->
         isWhiteSpace c = false
         /\ ~ In c [ch "/"; 92; ch "<"; ch ">"; ch ":"; quote; ch "|"; ch "?"; ch "*"]
         /\ 32 <= c.
Proof.
  destruct (sanitizeFileName_result input) as [H|[s [_ H]]].
  - exists []. split; [exact H|]. split; [simpl; lia | intros c []].
  - exists (fileNamePipeline s). split; [exact H|]. split.
    + unfold fileNamePipeline, substring0. apply firstn_le_length.
    + intros c Hc. apply fileNamePipeline_chars in Hc.
      destruct Hc as [Hws [Hsep Hun]]. split; [exact Hws|].
      unfold isFileNameUnsafe, isPathSeparator in *.
      repeat rewrite orb_false_iff in Hun. repeat rewrite orb_false_iff in Hsep.
      destruct Hun as [[[[[[[H1 H2] H3] H4] H5] H6] H7] H8].
      destruct Hsep as [H9 H10].
      apply N.eqb_neq in H1, H2, H3, H4, H5, H6, H7, H9, H10.
      apply N.leb_gt in H8. split; [|lia].
      intros [<-|[<-|[<-|[<-|[<-|[<-|[<-|[<-|[<-|[]]]]]]]]]]; congruence.
Qed.

(** X6: a name of at most 255 characters that [sanitizeFileName] could have
    returned (no white space, separator, illegal or control character) and
    that has no two consecutive dots is returned as it is. *)
Theorem sanitizeFileName_clean_unchanged (s : jsstring) :
  (length s <= 255)%nat ->
  (forall c, In c s ->
     isWhiteSpace c = false /\ isPathSeparator c = false
     /\ isFileNameUnsafe c = false) ->
  includes (js "..") s = false ->
  sanitizeFileName (JString s) = Normal s.
Proof.
  intros Hlen Hchars Hdots. rewrite sanitizeFileName_string. f_equal.
  now apply fileNamePipeline_fixed_iff.
Qed.

Lemma sanitizeFileName_clean_unchanged_example :
  sanitizeFileName (JString (js "IMG_2024.final.jpg")) = Normal (js "IMG_2024.final.jpg").
Proof.
  apply sanitizeFileName_clean_unchanged.
  - simpl; lia.
  - intros c Hc. in_literal Hc; repeat split.
  - reflexivity.
Defined.

Lemma removeClass_app (cls : N -> bool) (a b : jsstring) :
  removeClass cls (a ++ b) = removeClass cls a ++ removeClass cls b.
Proof. unfold removeClass. apply List.filter_app. Qed.

(** X7: for every value, [sanitizeUrl] returns without an exception either
    the empty string or a string that still starts with http://, https:// or
    a slash; the result has none of the characters less-than, greater-than,
    double quote, apostrophe and backtick, and all its characters come from
    the input. *)
Theorem sanitizeUrl_output_safe (input : jsvalue) :
  exists out : jsstring,
    sanitizeUrl input = Normal out
    /\ (out = [] \/ urlPattern_test out = true)
    /\ (forall c, In c out -> ~ In c [ch "<"; ch ">"; quote; ch "'"; ch "`"])
    /\ (forall c, In c out -> exists s, input = JString s /\ In c s).
Proof.
  destruct (guarded_cases input) as [[Hg _]|[s ->]].
  - exists []. unfold sanitizeUrl. rewrite Hg.
    split; [reflexivity|]. split; [now left|]. split; intros c [].
  - unfold sanitizeUrl. rewrite notAString_string. destruct s as [|a r].
    { exists []. split; [reflexivity|]. split; [now left|]. split; intros c []. }
    cbn [length Nat.eqb stringMethod mbind completion_bind].
    destruct (urlPattern_test (trim (a :: r))) eqn:Htest; cbn [negb].
    + exists (removeClass isUrlUnsafe (trim (a :: r))).
      split; [reflexivity|]. split; [right|split].
      * apply urlPattern_test_spec in Htest. destruct Htest as [rest Hrest].
        apply urlPattern_test_spec. exists (removeClass isUrlUnsafe rest).
        destruct Hrest as [-> | [-> | ->]]; rewrite removeClass_app; tauto.
      * intros c Hc. apply removeClass_spec in Hc. destruct Hc as [_ Hc].
        unfold isUrlUnsafe in Hc. rewrite !orb_false_iff in Hc.
        destruct Hc as [[[[H1 H2] H3] H4] H5].
        apply N.eqb_neq in H1, H2, H3, H4, H5.
        intros [<-|[<-|[<-|[<-|[<-|[]]]]]]; congruence.
      * intros c Hc. exists (a :: r). split; [reflexivity|].
        apply removeClass_spec in Hc. destruct Hc as [Hc _]. now apply In_trim.
    + exists []. split; [reflexivity|]. split; [now left|]. split; intros c [].
Qed.

(** X8: for every value, [sanitizeTags] returns without an exception at most
    20 tags, each between 1 and 50 characters long and free of commas, of
    the five characters that [sanitizeText] replaces for good and of the
    stripped control characters. *)
Theorem sanitizeTags_output_safe (input : jsvalue) :
  exists tags : list jsstring,
    sanitizeTags input = Normal tags
    /\ (length tags <= 20)%nat
    /\ forall tag, In tag tags ->
         (1 <= length tag <= 50)%nat
         /\ forall c, In c tag ->
              ~ In c [ch ","; ch "<"; ch ">"; quote; ch "'"; ch "/"]
              /\ isControl c = false.
Proof.
  destruct (guarded_cases input) as [[Hg _]|[s ->]].
  - exists []. unfold sanitizeTags. rewrite Hg.
    split; [reflexivity|]. split; [simpl; lia | intros tag []].
  - unfold sanitizeTags. rewrite notAString_string. destruct s as [|a r].
    { exists []. split; [reflexivity|]. split; [simpl; lia | intros tag []]. }
    cbn [length Nat.eqb stringMethod mbind completion_bind].
    rewrite arrayMap_sanitizeText. cbn [mbind completion_bind].
    eexists. split; [reflexivity|]. split; [apply firstn_le_length|].
    intros tag Htag. apply In_firstn in Htag. apply filter_In in Htag.
    destruct Htag as [Htag Hlen]. apply andb_true_iff in Hlen.
    destruct Hlen as [Hl1 Hl2]. apply Nat.ltb_lt in Hl1. apply Nat.leb_le in Hl2.
    split; [lia|]. apply in_map_iff in Htag. destruct Htag as [part [<- Hpart]].
    intros c Hc. pose proof (textPipeline_chars part c Hc) as [Hm Hctl].
    split; [|exact Hctl].
    assert (Hcomma : c <> ch ",").
    { intros ->. unfold textPipeline, substring0 in Hc. apply In_firstn in Hc.
      apply In_escapeEntities in Hc. destruct Hc as [_ [Hc|Hc]].
      - in_literal Hc; discriminate.
      - apply removeClass_spec in Hc. destruct Hc as [Hc _]. apply In_trim in Hc.
        pose proof (split_no_separator (ch ",") (a :: r)) as Hsep.
        rewrite List.Forall_forall in Hsep. now apply (Hsep part). }
    intros [<-|Hin]; [congruence|].
    in_literal Hin; vm_compute in Hm; discriminate.
Qed.

(** ** Server-side [sanitizeHtml] *)

Lemma In_stripTagsFrom (b : bool) (s : jsstring) (c : N) :
  In c (stripTagsFrom b s) -> In c s.
Proof.
  revert b. induction s as [|a r IH]; intros b; cbn [stripTagsFrom]; [tauto|].
  destruct b.
  - intros H. right. now apply IH in H.
  - destruct ((a =? ch "<") && existsb (N.eqb (ch ">")) r).
    + intros H. right. now apply IH in H.
    + intros [H|H]; [now left | right; now apply IH in H].
Qed.

Lemma existsb_stripTagsFrom (b : bool) (s : jsstring) :
  existsb (N.eqb (ch ">")) s = false ->
  existsb (N.eqb (ch ">")) (stripTagsFrom b s) = false.
Proof.
  intros H. apply not_true_iff_false. intros Hex.
  apply existsb_exists in Hex. destruct Hex as [c [Hc Heq]].
  apply In_stripTagsFrom in Hc.
  assert (existsb (N.eqb (ch ">")) s = true) by (apply existsb_exists; eauto).
  congruence.
Qed.

Lemma hasTag_stripTagsFrom (b : bool) (s : jsstring) :
  hasTag (stripTagsFrom b s) = false.
Proof.
  revert b. induction s as [|a r IH]; intros b; cbn [stripTagsFrom]; [reflexivity|].
  destruct b; [apply IH|].
  destruct ((a =? ch "<") && existsb (N.eqb (ch ">")) r) eqn:Hopen; [apply IH|].
  cbn [hasTag]. rewrite IH, orb_false_r.
  apply andb_false_iff in Hopen. destruct Hopen as [Ha|Hr].
  - now rewrite Ha.
  - rewrite (existsb_stripTagsFrom false r Hr). apply andb_false_r.
Qed.

Lemma stripTags_without_tag (s : jsstring) : hasTag s = false -> stripTags s = s.
Proof.
  unfold stripTags. induction s as [|a r IH]; [reflexivity|].
  cbn [hasTag stripTagsFrom]. intros H. apply orb_false_iff in H.
  destruct H as [Hopen Hr]. rewrite Hopen. f_equal. now apply IH.
Qed.

(** X9: without a browser window, [sanitizeHtml] returns for every value,
    without an exception, a string in which the tag pattern no longer
    matches (no less-than sign has a greater-than sign after it) and whose
    characters all come from the input; sanitizing that result again returns
    it unchanged. *)
Theorem sanitizeHtml_server_strips_tags (input : jsvalue) :
  exists out : jsstring,
    sanitizeHtml None input = Normal out
    /\ hasTag out = false
    /\ (forall c, In c out -> exists s, input = JString s /\ In c s)
    /\ sanitizeHtml None (JString out) = Normal out.
Proof.
  assert (Hagain : forall o, hasTag o = false -> sanitizeHtml None (JString o) = Normal o).
  { intros o Ho. unfold sanitizeHtml. rewrite notAString_string.
    destruct o as [|a r]; [reflexivity|].
    cbn [length Nat.eqb stringMethod mbind completion_bind].
    now rewrite stripTags_without_tag. }
  destruct (guarded_cases input) as [[Hg _]|[s ->]].
  - exists []. unfold sanitizeHtml at 1. rewrite Hg.
    split; [reflexivity|]. split; [reflexivity|]. split; [intros c []|].
    now apply Hagain.
  - exists (stripTags s). split; [|split; [|split]].
    + unfold sanitizeHtml. rewrite notAString_string. destruct s; reflexivity.
    + apply hasTag_stripTagsFrom.
    + intros c Hc. exists s. split; [reflexivity|]. now apply In_stripTagsFrom in Hc.
    + apply Hagain, hasTag_stripTagsFrom.
Qed.

(** ** Header clauses *)

Lemma join_contains (sep p : jsstring) (parts : list jsstring) :
  In p parts ->
  exists pre post,
    join sep parts = pre ++ p ++ post
    /\ (pre = [] \/ exists pre', pre = pre' ++ sep)
    /\ (post = [] \/ exists post', post = sep ++ post').
Proof.
  induction parts as [|q rest IH]; [intros []|].
  destruct rest as [|q' rest].
  - intros [->|[]]. exists [], []. cbn. rewrite app_nil_r. tauto.
  - intros [->|Hin].
    + exists [], (sep ++ join sep (q' :: rest)). split; [reflexivity|].
      split; [now left | right; eauto].
    + destruct (IH Hin) as [pre [post [Heq [Hpre Hpost]]]].
      exists (q ++ sep ++ pre), post. split; [|split; [right | exact Hpost]].
      * change (join sep (q :: q' :: rest)) with (q ++ sep ++ join sep (q' :: rest)).
        rewrite Heq. now rewrite <- !app_assoc.
      * destruct Hpre as [->|[pre' ->]].
        -- exists q. now rewrite app_nil_r.
        -- exists (q ++ sep ++ pre'). now rewrite <- !app_assoc.
Qed.

(** X10: whatever the directive object, the header that [buildCSPHeader]
    builds from it contains the clause of every directive in one piece, with
    the separator (or nothing) on either side: no directive is dropped or
    merged with its neighbour. *)
Theorem buildCSPHeaderOf_keeps_every_directive
    (directives : list (jsstring * list jsstring)) (entry : jsstring * list jsstring) :
  In entry directives ->
  exists pre post,
    buildCSPHeaderOf directives = pre ++ directiveClause entry ++ post
    /\ (pre = [] \/ exists pre', pre = pre' ++ js "; ")
    /\ (post = [] \/ exists post', post = js "; " ++ post').
Proof.
  intros Hin. unfold buildCSPHeaderOf. apply join_contains.
  apply in_map_iff. now exists entry.
Qed.

Lemma buildCSPHeaderOf_keeps_every_directive_example :
  exists pre post,
    buildCSPHeader = pre ++ js "img-src 'self' data: blob: https:" ++ post
    /\ (pre = [] \/ exists pre', pre = pre' ++ js "; ")
    /\ (post = [] \/ exists post', post = js "; " ++ post').
Proof.
  apply (buildCSPHeaderOf_keeps_every_directive CSP_DIRECTIVES
           (js "img-src", [js "'self'"; js "data:"; js "blob:"; js "https:"])).
  cbn. tauto.
Defined.

(** ** More on the rate limiter *)

(** X11: right after [reset(identifier)] a call of [isAllowed] for that
    identifier is allowed whatever the limits are (also for a [maxAttempts]
    of zero or less) and opens a new window with count 1; the other entries
    are the ones from before the reset. *)
Theorem isAllowed_after_reset (now : Z) (identifier : jsstring)
    (maxAttempts windowMs : Z) (attempts : attemptsMap) :
  isAllowed now identifier maxAttempts windowMs (reset identifier attempts)
  = (true, <[identifier := {| count := 1; resetTime := now + windowMs |}]> attempts).
Proof.
  unfold reset. rewrite isAllowed_absent by apply lookup_delete_eq.
  now rewrite insert_delete_eq.
Qed.

(** X12: a call of [isAllowed] whose entry has expired behaves exactly as if
    the entry had been [reset] first: same answer, same map afterwards. *)
Theorem isAllowed_expired_as_reset (now : Z) (identifier : jsstring)
    (maxAttempts windowMs : Z) (attempts : attemptsMap) (e : RateLimitEntry) :
  attempts !! identifier = Some e ->
  (now > resetTime e)%Z ->
  isAllowed now identifier maxAttempts windowMs attempts
  = isAllowed now identifier maxAttempts windowMs (reset identifier attempts).
Proof.
  intros He Hexp. rewrite (isAllowed_expired now identifier _ _ attempts e He Hexp).
  unfold reset. rewrite isAllowed_absent by apply lookup_delete_eq.
  now rewrite insert_delete_eq.
Qed.

Lemma isAllowed_expired_as_reset_example :
  let attempts : attemptsMap := {[ js "user1" := {| count := 7; resetTime := 1000 |} ]} in
  isAllowed 1001 (js "user1") 3 1000 attempts
  = isAllowed 1001 (js "user1") 3 1000 (reset (js "user1") attempts).
Proof.
  apply (isAllowed_expired_as_reset 1001 (js "user1") 3 1000
           {[ js "user1" := {| count := 7; resetTime := 1000 |} ]}
           {| count := 7; resetTime := 1000 |}).
  - apply lookup_singleton_eq.
  - simpl; lia.
Defined.

(** X13: [isAllowed] and [reset] for one identifier leave the entry of every
    other identifier as it was. *)
Theorem isAllowed_reset_frame (now : Z) (identifier other : jsstring)
    (maxAttempts windowMs : Z) (attempts : attemptsMap) :
  other <> identifier ->
  (isAllowed now identifier maxAttempts windowMs attempts).2 !! other = attempts !! other
  /\ reset identifier attempts !! other = attempts !! other.
Proof.
  intros Hne. split.
  - destruct (isAllowed_fixedWindow now identifier maxAttempts windowMs attempts);
      try reflexivity; now apply lookup_insert_ne.
  - unfold reset. now apply lookup_delete_ne.
Qed.

Lemma isAllowed_reset_frame_example :
  let attempts : attemptsMap := {[ js "b" := {| count := 2; resetTime := 50 |} ]} in
  (isAllowed 10 (js "a") 5 1000 attempts).2 !! js "b" = attempts !! js "b"
  /\ reset (js "a") attempts !! js "b" = attempts !! js "b".
Proof.
  apply (isAllowed_reset_frame 10 (js "a") (js "b") 5 1000).
  discriminate.
Defined.

(** X14: [isAllowed] never removes an entry: after a call the map has an
    entry for exactly the identifiers it had before and the one of the call,
    so entries of identifiers that stop calling stay until [reset], which
    removes the entry of its identifier and no other. *)
Theorem isAllowed_never_evicts (now : Z) (identifier : jsstring)
    (maxAttempts windowMs : Z) (attempts : attemptsMap) :
  dom (isAllowed now identifier maxAttempts windowMs attempts).2
  = {[ identifier ]} ∪ dom attempts
  /\ dom (reset identifier attempts) = dom attempts ∖ {[ identifier ]}.
Proof.
  split; [|apply dom_delete_L].
  destruct (isAllowed_fixedWindow now identifier maxAttempts windowMs attempts)
    as [Hnew | e He Hin Hfull | e He Hin Hroom].
  - apply dom_insert_L.
  - assert (Hd : identifier ∈ dom attempts) by (apply elem_of_dom; eauto).
    apply set_eq. intros x. rewrite elem_of_union, elem_of_singleton.
    split; [tauto | intros [->|Hx]; assumption].
  - apply dom_insert_L.
Qed.

Lemma isAllowedAt_within (times : list Z) (identifier : jsstring)
    (maxAttempts windowMs : Z) (attempts : attemptsMap) (e : RateLimitEntry) :
  attempts !! identifier = Some e ->
  (forall t, In t times -> (t <= resetTime e)%Z) ->
  let k := Z.to_nat (maxAttempts - count e) in
  let r := isAllowedAt times identifier maxAttempts windowMs attempts in
  r.1 = replicate (Nat.min (length times) k) true
        ++ replicate (length times - k) false
  /\ r.2 !! identifier
     = Some {| count := count e + Z.of_nat (Nat.min (length times) k);
               resetTime := resetTime e |}.
Proof.
  cbv zeta. revert attempts e.
  induction times as [|t rest IH]; intros attempts e He Htimes.
  - cbn. split; [reflexivity|]. rewrite He. destruct e as [c rt]. cbn.
    do 2 f_equal. lia.
  - assert (Ht : (t <= resetTime e)%Z) by (apply Htimes; now left).
    assert (Hrest : forall t', In t' rest -> (t' <= resetTime e)%Z)
      by (intros t' Ht'; apply Htimes; now right).
    cbn [isAllowedAt fst snd length].
    destruct (Z_lt_ge_dec (count e) maxAttempts) as [Hroom|Hfull].
    + rewrite (isAllowed_room t identifier _ _ attempts e He Ht Hroom). cbn [fst snd].
      destruct (IH (<[identifier := {| count := count e + 1;
                                       resetTime := resetTime e |}]> attempts)
                  {| count := count e + 1; resetTime := resetTime e |}
                  (lookup_insert_eq _ _ _) Hrest) as [IH1 IH2].
      cbn [count resetTime] in IH1, IH2. rewrite IH1, IH2.
      replace (Nat.min (S (length rest)) (Z.to_nat (maxAttempts - count e)))
        with (S (Nat.min (length rest) (Z.to_nat (maxAttempts - (count e + 1)))))
        by lia.
      replace (S (length rest) - Z.to_nat (maxAttempts - count e))%nat
        with (length rest - Z.to_nat (maxAttempts - (count e + 1)))%nat by lia.
      split; [reflexivity|]. do 2 f_equal. lia.
    + rewrite (isAllowed_full t identifier _ _ attempts e He Ht Hfull). cbn [fst snd].
      destruct (IH attempts e He Hrest) as [IH1 IH2]. rewrite IH1, IH2.
      replace (Z.to_nat (maxAttempts - count e)) with 0%nat by lia.
      rewrite !Nat.min_0_r, !Nat.sub_0_r. split; reflexivity.
Qed.

(** With a whole [maxAttempts]: when an identifier without entry calls
    [isAllowed] at time [t0] and then again at any times up to
    [t0 + windowMs], exactly the first [maxAttempts] calls are allowed (the
    very first one always is) and all later ones are denied; the entry
    counts the allowed calls and its window still ends at [t0 + windowMs]. *)
Theorem isAllowedAt_one_window (t0 : Z) (times : list Z) (identifier : jsstring)
    (maxAttempts windowMs : Z) (attempts : attemptsMap) :
  attempts !! identifier = None ->
  (forall t, In t times -> (t <= t0 + windowMs)%Z) ->
  let k := Z.to_nat (maxAttempts - 1) in
  let r := isAllowedAt (t0 :: times) identifier maxAttempts windowMs attempts in
  r.1 = true :: replicate (Nat.min (length times) k) true
             ++ replicate (length times - k) false
  /\ r.2 !! identifier
     = Some {| count := 1 + Z.of_nat (Nat.min (length times) k);
               resetTime := t0 + windowMs |}.
Proof.
  intros Hfresh Htimes. cbv zeta. cbn [isAllowedAt].
  rewrite (isAllowed_absent t0) by exact Hfresh. cbn [fst snd].
  destruct (isAllowedAt_within times identifier maxAttempts windowMs
              (<[identifier := {| count := 1; resetTime := t0 + windowMs |}]> attempts)
              {| count := 1; resetTime := t0 + windowMs |}
              (lookup_insert_eq _ _ _) Htimes) as [H1 H2].
  cbn [count resetTime] in H1, H2. now rewrite H1, H2.
Qed.

Lemma isAllowedAt_one_window_example :
  let r := isAllowedAt [0; 100; 200; 1000]%Z (js "user1") 3 1000 ∅ in
  r.1 = [true; true; true; false]
  /\ r.2 !! js "user1" = Some {| count := 3; resetTime := 1000 |}.
Proof.
  apply (isAllowedAt_one_window 0 [100; 200; 1000]%Z (js "user1") 3 1000 ∅).
  - apply lookup_empty.
  - intros t [<-|[<-|[<-|[]]]]; lia.
Defined.

(** ** More on the upload validation *)

(** X16: [validateFileUpload] accepts a file exactly when its size is at
    most 10485760 bytes (a file of exactly 10 MiB passes), its MIME type is
    one of the five allowed ones and its sanitized name is not empty; it
    reports at most three errors. *)
Theorem validateFileUpload_accepts_iff (file : File) :
  exists r : UploadValidation,
    validateFileUpload file = Normal r
    /\ (isValid r = true <->
        (File_size file <= 10485760)%Z
        /\ In (File_type file)
             [js "image/jpeg"; js "image/jpg"; js "image/png";
              js "image/gif"; js "image/webp"]
        /\ sanitizedName r <> [])
    /\ (length (errors r) <= 3)%nat.
Proof.
  unfold validateFileUpload. rewrite sanitizeFileName_string.
  cbn [mbind completion_bind]. eexists. split; [reflexivity|].
  cbn [sanitizedName errors isValid].
  change (10 * 1024 * 1024)%Z with 10485760%Z.
  pose proof (arrayIncludes_spec allowedTypes (File_type file)) as Htype.
  unfold allowedTypes in Htype at 2.
  destruct (Z.gtb_spec (File_size file) 10485760) as [Hs|Hs];
    destruct (arrayIncludes allowedTypes (File_type file));
    destruct (fileNamePipeline (File_name file)) as [|c n]; cbn;
    (split; [split; [try discriminate; intros _ | intros [H1 [H2 H3]]] | lia]);
    try reflexivity; try congruence; try lia;
    try (destruct Htype as [Ht1 Ht2]; specialize (Ht2 H2); discriminate).
  split; [lia|]. split; [now apply Htype | discriminate].
Qed.

(** ** Random selection of tags *)

Section RandomItemsProperties.
Context {T : Type} `{EqDecision T}.

Lemma insert_found_perm (a : list T) (j : nat) (x y : T) :
  a !! j = Some y -> y :: <[j := x]> a ≡ₚ x :: a.
Proof.
  revert j. induction a as [|h t IH]; intros j Hj; [discriminate|].
  destruct j as [|j'].
  - injection Hj as ->. cbn. apply perm_swap.
  - cbn in Hj. cbn [list_insert]. change (<[S j' := x]> (h :: t)) with (h :: <[j' := x]> t).
    rewrite perm_swap. rewrite (IH j' Hj). apply perm_swap.
Qed.

Lemma insert_swap_perm (a : list T) (i j : nat) (x y : T) :
  a !! i = Some x -> a !! j = Some y -> <[j := x]> (<[i := y]> a) ≡ₚ a.
Proof.
  revert i j. induction a as [|h t IH]; intros i j Hi Hj; [destruct i; discriminate|].
  destruct i as [|i'], j as [|j']; cbn in Hi, Hj.
  - injection Hi as ->. injection Hj as ->. reflexivity.
  - injection Hi as ->. now apply insert_found_perm.
  - injection Hj as ->. now apply insert_found_perm.
  - change (h :: <[j' := x]> (<[i' := y]> t) ≡ₚ h :: t). constructor.
    now apply IH.
Qed.

Lemma swapAt_perm (i j : nat) (a a' : list T) :
  swapAt i j a = Some a' -> a' ≡ₚ a.
Proof.
  unfold swapAt. destruct (a !! i) as [x|] eqn:Hx; [|discriminate].
  destruct (a !! j) as [y|] eqn:Hy; [|discriminate]. cbn.
  intros [= <-]. now apply insert_swap_perm.
Qed.

Lemma swapAt_in_range (i j : nat) (a : list T) :
  (i < length a)%nat -> (j < length a)%nat -> exists a', swapAt i j a = Some a'.
Proof.
  intros Hi Hj. unfold swapAt.
  destruct (lookup_lt_is_Some_2 a i Hi) as [x ->].
  destruct (lookup_lt_is_Some_2 a j Hj) as [y ->]. cbn. eauto.
Qed.

Lemma shuffleFrom_perm (rnd : nat -> nat) (i : nat) (a : list T) :
  (forall k, (0 < k <= i)%nat -> (rnd k <= k)%nat) ->
  (i < length a \/ i = 0)%nat ->
  exists a', shuffleFrom rnd i a = Some a' /\ a' ≡ₚ a.
Proof.
  revert a. induction i as [|i' IH]; intros a Hrnd Hi.
  - exists a. split; reflexivity.
  - destruct Hi as [Hi|Hi]; [|discriminate]. cbn [shuffleFrom].
    assert (Hj : (rnd (S i') <= S i')%nat) by (apply Hrnd; lia).
    destruct (swapAt_in_range (S i') (rnd (S i')) a) as [a1 Ha1]; [lia | lia |].
    rewrite Ha1. cbn. pose proof (swapAt_perm _ _ _ _ Ha1) as Hp.
    destruct (IH a1) as [a' [Ha' Hp']].
    + intros k Hk. apply Hrnd. lia.
    + left. rewrite (Permutation_length Hp). lia.
    + exists a'. split; [exact Ha' | now rewrite Hp'].
Qed.

(** What one [add] of the set construction does to the elements seen. *)
Lemma setFrom_fold (a seen : list T) :
  NoDup seen ->
  let r := fold_left (fun seen x => if bool_decide (x ∈ seen) then seen else seen ++ [x])
             a seen in
  NoDup r
  /\ (forall x, x ∈ r <-> x ∈ seen \/ x ∈ a)
  /\ (NoDup (seen ++ a) -> r = seen ++ a)
  /\ (length r <= length seen + length a)%nat.
Proof.
  cbv zeta. revert seen. induction a as [|y t IH]; intros seen Hnd; cbn [fold_left].
  - split; [exact Hnd|]. split; [|split; [now rewrite app_nil_r | lia]].
    intros x. rewrite elem_of_nil. tauto.
  - case_bool_decide as Hy.
    + destruct (IH seen Hnd) as [H1 [H2 [H3 H4]]]. split; [exact H1|].
      split; [|split].
      * intros x. rewrite H2, elem_of_cons. split; [tauto|].
        intros [Hx|[->|Hx]]; tauto.
      * intros Hnd'. apply NoDup_app in Hnd'. destruct Hnd' as [_ [Hdis _]].
        exfalso. apply (Hdis y Hy). now left.
      * cbn [length]. lia.
    + assert (Hnd1 : NoDup (seen ++ [y])).
      { apply NoDup_app. split; [exact Hnd|]. split; [|apply NoDup_singleton].
        intros x Hx Hx'. apply list_elem_of_singleton in Hx'. now subst. }
      destruct (IH (seen ++ [y]) Hnd1) as [H1 [H2 [H3 H4]]]. split; [exact H1|].
      split; [|split].
      * intros x. rewrite H2, elem_of_app, list_elem_of_singleton, elem_of_cons. tauto.
      * intros Hnd'. rewrite <- app_assoc in H3. now apply H3.
      * rewrite length_app in H4. cbn [length] in *. lia.
Qed.

Lemma NoDup_firstn (n : nat) (a : list T) : NoDup a -> NoDup (firstn n a).
Proof.
  intros Hnd. rewrite <- (firstn_skipn n a) in Hnd.
  apply NoDup_app in Hnd. tauto.
Qed.

Lemma sliceTo_take (e : Z) (a : list T) : exists n, sliceTo e a = firstn n a.
Proof. unfold sliceTo. destruct (e <? 0)%Z; eauto. Qed.

(** X17: the Fisher-Yates loop of [getRandomItems] only rearranges: when
    every drawn index lies in its range, it ends with a permutation of the
    array it started from. *)
Theorem shuffle_is_permutation (rnd : nat -> nat) (array : list T) :
  (forall k, (0 < k < length array)%nat -> (rnd k <= k)%nat) ->
  exists shuffled,
    shuffleFrom rnd (length array - 1) array = Some shuffled
    /\ shuffled ≡ₚ array.
Proof.
  intros Hrnd. apply shuffleFrom_perm.
  - intros k Hk. apply Hrnd. lia.
  - lia.
Qed.

Lemma getRandomItems_props (rnd : nat -> nat) (array : list T) (count : Z) :
  (forall k, (0 < k < length array)%nat -> (rnd k <= k)%nat) ->
  exists items,
    getRandomItems rnd array count = Some items
    /\ NoDup items
    /\ (forall x, x ∈ items -> x ∈ array)
    /\ ((0 <= count)%Z -> (length items <= Z.to_nat count)%nat)
    /\ ((0 <= count)%Z -> NoDup array ->
        length items = Nat.min (Z.to_nat count) (length array)).
Proof.
  intros Hrnd. unfold getRandomItems.
  destruct (shuffleFrom_perm rnd (length array - 1) array) as [sh [Hsh Hp]].
  { intros k Hk. apply Hrnd. lia. }
  { lia. }
  rewrite Hsh. cbn. eexists. split; [reflexivity|].
  set (maxCount := Z.min count (Z.of_nat (length array))).
  destruct (setFrom_fold (sliceTo maxCount sh) [] (NoDup_nil_2)) as [H1 [H2 [H3 H4]]].
  fold (setFrom (sliceTo maxCount sh)) in H1, H2, H3, H4.
  assert (Hslice : (0 <= count)%Z ->
            sliceTo maxCount sh = firstn (Z.to_nat maxCount) sh).
  { intros Hc. unfold sliceTo. destruct (Z.ltb_spec maxCount 0); [lia | reflexivity]. }
  pose proof (Permutation_length Hp) as Hlen.
  split; [exact H1|]. split; [|split].
  - intros x Hx. apply H2 in Hx. destruct Hx as [Hx|Hx]; [now apply elem_of_nil in Hx|].
    destruct (sliceTo_take maxCount sh) as [n Hn]. rewrite Hn in Hx.
    rewrite <- Hp. apply list_elem_of_In. apply list_elem_of_In in Hx.
    now apply In_firstn in Hx.
  - intros Hc. rewrite (Hslice Hc) in H4. rewrite (Hslice Hc).
    rewrite length_firstn in H4. cbn [length] in H4. subst maxCount. lia.
  - intros Hc Hnd. rewrite H3.
    + cbn [app]. rewrite (Hslice Hc), length_firstn. subst maxCount. lia.
    + cbn [app]. rewrite (Hslice Hc). apply NoDup_firstn. now rewrite Hp.
Qed.

(** X18: when every drawn index lies in its range, [getRandomItems] returns
    items of the array without repetition; for a count that is not negative
    it returns at most [count] items, and exactly the smaller of [count] and
    the array length when the array has no repeated element. *)
Theorem getRandomItems_unique_subset (rnd : nat -> nat) (array : list T) (count : Z) :
  (forall k, (0 < k < length array)%nat -> (rnd k <= k)%nat) ->
  exists items,
    getRandomItems rnd array count = Some items
    /\ NoDup items
    /\ (forall x, x ∈ items -> x ∈ array)
    /\ ((0 <= count)%Z -> (length items <= Z.to_nat count)%nat)
    /\ ((0 <= count)%Z -> NoDup array ->
        length items = Nat.min (Z.to_nat count) (length array)).
Proof. apply getRandomItems_props. Qed.

End RandomItemsProperties.

Lemma shuffle_is_permutation_example :
  exists shuffled,
    shuffleFrom (fun _ => 0%nat) (length [js "a"; js "b"; js "c"] - 1)
      [js "a"; js "b"; js "c"] = Some shuffled
    /\ shuffled ≡ₚ [js "a"; js "b"; js "c"].
Proof.
  apply (shuffle_is_permutation (fun _ => 0%nat) [js "a"; js "b"; js "c"]).
  intros k Hk. lia.
Defined.

Lemma getRandomItems_unique_subset_example :
  exists items,
    getRandomItems (fun k => (k - 1)%nat)
      [js "landscape"; js "portrait"; js "nature"; js "street"] 2 = Some items
    /\ NoDup items
    /\ (forall x, x ∈ items ->
          x ∈ [js "landscape"; js "portrait"; js "nature"; js "street"])
    /\ ((0 <= 2)%Z -> (length items <= Z.to_nat 2)%nat)
    /\ ((0 <= 2)%Z ->
        NoDup [js "landscape"; js "portrait"; js "nature"; js "street"] ->
        length items
        = Nat.min (Z.to_nat 2)
            (length [js "landscape"; js "portrait"; js "nature"; js "street"])).
Proof.
  apply (getRandomItems_unique_subset (fun k => (k - 1)%nat)
           [js "landscape"; js "portrait"; js "nature"; js "street"] 2).
  intros k Hk. lia.
Defined.

(** ** Mock photos *)

Lemma AVAILABLE_TAGS_NoDup : NoDup AVAILABLE_TAGS.
Proof. apply (bool_decide_unpack _). vm_compute. exact I. Qed.

Lemma mockPhoto_props (draws : RandomDraws) (index : nat) :
  (0 <= draw_tagCount draws <= 2)%Z ->
  (forall k, (0 < k < length AVAILABLE_TAGS)%nat -> (draw_shuffle draws k <= k)%nat) ->
  exists p,
    mockPhoto draws index = Some p
    /\ Photo_url p = js "/placeholder-" ++ decimal (index + 1) ++ js ".jpg"
    /\ PHOTO_TITLES !! (index mod 9)%nat = Some (Photo_title p)
    /\ PHOTOGRAPHERS !! (index mod 9)%nat = Some (Photo_photographer p)
    /\ NoDup (Photo_tags p)
    /\ (forall tag, tag ∈ Photo_tags p -> tag ∈ AVAILABLE_TAGS)
    /\ (2 <= length (Photo_tags p) <= 4)%nat.
Proof.
  intros Hcount Hshuffle. unfold mockPhoto.
  change (length PHOTO_TITLES) with 9%nat. change (length PHOTOGRAPHERS) with 9%nat.
  assert (Hidx : (index mod 9 < 9)%nat) by (apply Nat.mod_upper_bound; lia).
  destruct (lookup_lt_is_Some_2 PHOTO_TITLES (index mod 9)%nat Hidx) as [title Htitle].
  destruct (lookup_lt_is_Some_2 PHOTOGRAPHERS (index mod 9)%nat Hidx) as [who Hwho].
  destruct (getRandomItems_props (draw_shuffle draws) AVAILABLE_TAGS
              (getRandomNumber (draw_tagCount draws) 2 4) Hshuffle)
    as [tags [Htags [Hnd [Hsub [_ Hlen]]]]].
  rewrite Htitle, Htags, Hwho. cbn [mbind option_bind].
  eexists. split; [reflexivity|]. cbn [Photo_url Photo_title Photo_photographer Photo_tags].
  repeat split; try assumption.
  - rewrite Hlen; [| unfold getRandomNumber; lia | apply AVAILABLE_TAGS_NoDup].
    change (length AVAILABLE_TAGS) with 23%nat. unfold getRandomNumber. lia.
  - rewrite Hlen; [| unfold getRandomNumber; lia | apply AVAILABLE_TAGS_NoDup].
    change (length AVAILABLE_TAGS) with 23%nat. unfold getRandomNumber. lia.
Qed.

(** X19: when the draws are in their ranges, [generateMockPhotoData(count)]
    returns [count] photos; the photo at [index] has the URL
    [/placeholder-(index+1).jpg], the title and the photographer at position
    [index mod 9] of their lists, and between two and four tags, all
    different and all from [AVAILABLE_TAGS]. *)
Theorem generateMockPhotoData_photos (draws : nat -> RandomDraws) (count : nat) :
  (forall index, (index < count)%nat ->
     (0 <= draw_tagCount (draws index) <= 2)%Z
     /\ forall k, (0 < k < length AVAILABLE_TAGS)%nat ->
          (draw_shuffle (draws index) k <= k)%nat) ->
  exists photos,
    generateMockPhotoData draws count = Some photos
    /\ length photos = count
    /\ forall index p, photos !! index = Some p ->
         Photo_url p = js "/placeholder-" ++ decimal (index + 1) ++ js ".jpg"
         /\ PHOTO_TITLES !! (index mod 9)%nat = Some (Photo_title p)
         /\ PHOTOGRAPHERS !! (index mod 9)%nat = Some (Photo_photographer p)
         /\ NoDup (Photo_tags p)
         /\ (forall tag, tag ∈ Photo_tags p -> tag ∈ AVAILABLE_TAGS)
         /\ (2 <= length (Photo_tags p) <= 4)%nat.
Proof.
  intros Hdraws. unfold generateMockPhotoData.
  assert (Hsome : is_Some (mapM (fun index => mockPhoto (draws index) index)
                             (seq 0 count))).
  { apply mapM_is_Some. apply Forall_forall. intros index Hin.
    apply elem_of_seq in Hin. destruct (Hdraws index ltac:(lia)) as [H1 H2].
    destruct (mockPhoto_props (draws index) index H1 H2) as [p [Hp _]].
    cbn. rewrite Hp. eauto. }
  destruct Hsome as [photos Hphotos]. exists photos. split; [exact Hphotos|].
  apply mapM_Some in Hphotos. split.
  - rewrite <- (Forall2_length _ _ _ Hphotos). apply length_seq.
  - intros index p Hp.
    destruct (Forall2_lookup_r _ _ _ _ _ Hphotos Hp) as [i [Hi Hmock]].
    apply lookup_seq in Hi. destruct Hi as [-> Hlt]. cbn in Hmock.
    destruct (Hdraws index Hlt) as [H1 H2].
    destruct (mockPhoto_props (draws index) index H1 H2) as [p' [Hp' Hprops]].
    rewrite Hmock in Hp'. injection Hp' as <-. exact Hprops.
Qed.

Lemma generateMockPhotoData_photos_example :
  let draws := fun index : nat =>
    {| draw_id := js "k3x9q2"; draw_tagCount := Z.of_nat (index mod 3);
       draw_likes := 10; draw_downloads := 5; draw_views := 100;
       draw_shuffle := fun k => (k - 1)%nat; draw_date := js "2025-01-31" |} in
  exists photos,
    generateMockPhotoData draws 9 = Some photos
    /\ length photos = 9%nat
    /\ forall index p, photos !! index = Some p ->
         Photo_url p = js "/placeholder-" ++ decimal (index + 1) ++ js ".jpg"
         /\ PHOTO_TITLES !! (index mod 9)%nat = Some (Photo_title p)
         /\ PHOTOGRAPHERS !! (index mod 9)%nat = Some (Photo_photographer p)
         /\ NoDup (Photo_tags p)
         /\ (forall tag, tag ∈ Photo_tags p -> tag ∈ AVAILABLE_TAGS)
         /\ (2 <= length (Photo_tags p) <= 4)%nat.
Proof.
  apply generateMockPhotoData_photos.
  intros index Hlt. cbn [draw_tagCount draw_shuffle]. split.
  - pose proof (Nat.mod_upper_bound index 3). lia.
  - intros k Hk. lia.
Defined.

(** ** Optional schemas and clean URLs *)

Lemma notAString_falsy (value : jsvalue) : truthy value = false -> notAString value = true.
Proof. intros H. unfold notAString. now rewrite H. Qed.

(** X20: the test [value ? ... : ''] in the transforms of the optional
    schemas never changes the result: for every value, the transforms of
    photoDescription and copyrightNotice return what [sanitizeText] returns,
    the one of searchQuery what [sanitizeSearchQuery] returns and the one of
    tags what [sanitizeTags] returns. *)
Theorem optional_transforms_are_the_sanitizers (value : jsvalue) :
  transform photoDescription value = sanitizeText value
  /\ transform copyrightNotice value = sanitizeText value
  /\ transform searchQuery value = sanitizeSearchQuery value
  /\ tagsTransform value = sanitizeTags value.
Proof.
  unfold tagsTransform. cbn [transform].
  destruct (truthy value) eqn:Ht; [repeat split|].
  apply notAString_falsy in Ht.
  unfold sanitizeText, sanitizeSearchQuery, sanitizeTags. rewrite Ht. repeat split.
Qed.

(** X21: a string without white space at its ends that starts with http://,
    https:// or a slash and has none of the five stripped characters is
    returned by [sanitizeUrl] as it is; this includes the URLs that start
    with two slashes and name another host. *)
Theorem sanitizeUrl_clean_unchanged (s : jsstring) :
  trim s = s ->
  urlPattern_test s = true ->
  (forall c, In c s -> isUrlUnsafe c = false) ->
  sanitizeUrl (JString s) = Normal s.
Proof.
  intros Htrim Htest Hchars. unfold sanitizeUrl. rewrite notAString_string.
  destruct s as [|a r]; [discriminate|].
  cbn [length Nat.eqb stringMethod mbind completion_bind].
  rewrite Htrim, Htest. cbn [negb]. now rewrite removeClass_id.
Qed.

Lemma sanitizeUrl_clean_unchanged_example :
  sanitizeUrl (JString (js "//cdn.example.com/a.jpg")) = Normal (js "//cdn.example.com/a.jpg").
Proof.
  apply sanitizeUrl_clean_unchanged.
  - reflexivity.
  - reflexivity.
  - intros c Hc. in_literal Hc; reflexivity.
Defined.

(** ** Limits that are not whole numbers *)

Lemma Qle_bool_ceiling (q : QArith_base.Q) (c : Z) :
  QArith_base.Qle_bool q (QArith_base.inject_Z c) = (c >=? Qround.Qceiling q)%Z.
Proof.
  destruct (Z.geb_spec c (Qround.Qceiling q)) as [Hge|Hlt].
  - apply QArith_base.Qle_bool_iff.
    apply (QArith_base.Qle_trans _ (QArith_base.inject_Z (Qround.Qceiling q))).
    + apply Qround.Qle_ceiling.
    + rewrite <- QArith_base.Zle_Qle. exact Hge.
  - apply not_true_iff_false. intros Hle. apply QArith_base.Qle_bool_iff in Hle.
    apply Qround.Qceiling_resp_le in Hle. rewrite Qround.Qceiling_Z in Hle. lia.
Qed.

(** A limit that is not whole acts as the next whole number above it. *)
Lemma isAllowedQ_ceiling (now : Z) (identifier : jsstring)
    (maxAttempts : QArith_base.Q) (windowMs : Z) (attempts : attemptsMap) :
  isAllowedQ now identifier maxAttempts windowMs attempts
  = isAllowed now identifier (Qround.Qceiling maxAttempts) windowMs attempts.
Proof.
  unfold isAllowedQ, isAllowed. destruct (attempts !! identifier) as [e|]; [|reflexivity].
  now rewrite Qle_bool_ceiling.
Qed.

Lemma runCallsQ_ceiling (maxAttempts : QArith_base.Q) (windowMs : Z)
    (calls : list call) :
  runCallsQ maxAttempts windowMs calls
  = runCalls (Qround.Qceiling maxAttempts) windowMs calls.
Proof.
  unfold runCallsQ, runCalls. generalize (∅ : attemptsMap).
  induction calls as [|c calls IH]; intros attempts; [reflexivity|].
  cbn [fold_left]. rewrite IH. f_equal.
  destruct c as [now identifier|identifier]; cbn [runCallQ runCall]; [|reflexivity].
  now rewrite isAllowedQ_ceiling.
Qed.

Lemma isAllowedAtQ_ceiling (times : list Z) (identifier : jsstring)
    (maxAttempts : QArith_base.Q) (windowMs : Z) (attempts : attemptsMap) :
  isAllowedAtQ times identifier maxAttempts windowMs attempts
  = isAllowedAt times identifier (Qround.Qceiling maxAttempts) windowMs attempts.
Proof.
  revert attempts. induction times as [|t rest IH]; intros attempts; [reflexivity|].
  cbn [isAllowedAtQ isAllowedAt]. now rewrite isAllowedQ_ceiling, IH.
Qed.

(** Counterexample to C10 as stated: with the limit 1.5, which is at least
    1, two calls inside one window leave the count 2, above the limit. *)
Lemma runCallsQ_count_exceeds_fractional_limit :
  QArith_base.Qle (QArith_base.inject_Z 1) (QArith_base.Qmake 3 2)
  /\ runCallsQ (QArith_base.Qmake 3 2) 1000
       [CallIsAllowed 0 (js "user1"); CallIsAllowed 1 (js "user1")] !! js "user1"
     = Some {| count := 2; resetTime := 1000 |}
  /\ ~ QArith_base.Qle (QArith_base.inject_Z 2) (QArith_base.Qmake 3 2)
  /\ ~ (forall (maxAttempts : QArith_base.Q) (windowMs : Z) (calls : list call),
          QArith_base.Qle (QArith_base.inject_Z 1) maxAttempts ->
          forall (identifier : jsstring) (e : RateLimitEntry),
            runCallsQ maxAttempts windowMs calls !! identifier = Some e ->
            (1 <= count e)%Z
            /\ QArith_base.Qle (QArith_base.inject_Z (count e)) maxAttempts).
Proof.
  assert (H1 : QArith_base.Qle (QArith_base.inject_Z 1) (QArith_base.Qmake 3 2))
    by (unfold QArith_base.Qle; cbn; lia).
  assert (H2 : runCallsQ (QArith_base.Qmake 3 2) 1000
                 [CallIsAllowed 0 (js "user1"); CallIsAllowed 1 (js "user1")]
                 !! js "user1"
               = Some {| count := 2; resetTime := 1000 |})
    by (vm_compute; reflexivity).
  assert (H3 : ~ QArith_base.Qle (QArith_base.inject_Z 2) (QArith_base.Qmake 3 2))
    by (unfold QArith_base.Qle; cbn; lia).
  split; [exact H1|]. split; [exact H2|]. split; [exact H3|].
  intros Hall. destruct (Hall _ _ _ H1 _ _ H2) as [_ Hle]. now apply H3.
Qed.

(** C10, as the code has it: in a limiter used with one [maxAttempts] of at
    least 1, whole or not, and any window length, after any sequence of
    [isAllowed] and [reset] calls, at any clock readings, every entry in the
    map has a count between 1 and [maxAttempts] rounded up to the next whole
    number; when [maxAttempts] is whole that is a count between 1 and
    [maxAttempts]. *)
Theorem runCallsQ_counts_bounded (maxAttempts : QArith_base.Q) (windowMs : Z)
    (calls : list call) :
  QArith_base.Qle (QArith_base.inject_Z 1) maxAttempts ->
  forall (identifier : jsstring) (e : RateLimitEntry),
    runCallsQ maxAttempts windowMs calls !! identifier = Some e ->
    (1 <= count e <= Qround.Qceiling maxAttempts)%Z
    /\ forall m : Z,
         QArith_base.Qeq maxAttempts (QArith_base.inject_Z m) ->
         (1 <= count e <= m)%Z.
Proof.
  intros Hmax identifier e He. rewrite runCallsQ_ceiling in He.
  assert (Hceil : (1 <= Qround.Qceiling maxAttempts)%Z).
  { apply Qround.Qceiling_resp_le in Hmax. now rewrite Qround.Qceiling_Z in Hmax. }
  assert (Hin : (1 <= count e <= Qround.Qceiling maxAttempts)%Z).
  { apply (fold_runCall_countsInRange (Qround.Qceiling maxAttempts) windowMs Hceil
             calls ∅ ltac:(intros i x; rewrite lookup_empty; discriminate)
             identifier e).
    exact He. }
  split; [exact Hin|]. intros m Hm.
  rewrite (Qround.Qceiling_comp _ _ Hm), Qround.Qceiling_Z in Hin. exact Hin.
Qed.

Lemma runCallsQ_counts_bounded_example :
  let calls := [CallIsAllowed 0 (js "a"); CallIsAllowed 1 (js "a");
                CallIsAllowed 2 (js "a"); CallIsAllowed 3 (js "b");
                CallReset (js "b"); CallIsAllowed 5000 (js "a")] in
  QArith_base.Qle (QArith_base.inject_Z 1) (QArith_base.Qmake 5 2)
  /\ forall (identifier : jsstring) (e : RateLimitEntry),
       runCallsQ (QArith_base.Qmake 5 2) 1000 calls !! identifier = Some e ->
       (1 <= count e <= Qround.Qceiling (QArith_base.Qmake 5 2))%Z
       /\ forall m : Z,
            QArith_base.Qeq (QArith_base.Qmake 5 2) (QArith_base.inject_Z m) ->
            (1 <= count e <= m)%Z.
Proof.
  assert (H : QArith_base.Qle (QArith_base.inject_Z 1) (QArith_base.Qmake 5 2))
    by (unfold QArith_base.Qle; cbn; lia).
  split; [exact H|].
  apply (runCallsQ_counts_bounded (QArith_base.Qmake 5 2) 1000). exact H.
Defined.

(** X15: for any limit, whole or not: when an identifier without entry calls
    [isAllowed] at time [t0] and then again at any times up to
    [t0 + windowMs], the first call is allowed; of the following calls
    exactly the first [k] are allowed and all later ones denied, where [k]
    is [maxAttempts] rounded up to a whole number, minus 1 (and 0 if that is
    negative), so [maxAttempts - 1] for a whole limit.  The entry counts the
    allowed calls and its window still ends at [t0 + windowMs]: the window
    does not slide. *)
Theorem isAllowedAtQ_one_window (t0 : Z) (times : list Z) (identifier : jsstring)
    (maxAttempts : QArith_base.Q) (windowMs : Z) (attempts : attemptsMap) :
  attempts !! identifier = None ->
  (forall t, In t times -> (t <= t0 + windowMs)%Z) ->
  let k := Z.to_nat (Qround.Qceiling maxAttempts - 1) in
  let r := isAllowedAtQ (t0 :: times) identifier maxAttempts windowMs attempts in
  r.1 = true :: replicate (Nat.min (length times) k) true
             ++ replicate (length times - k) false
  /\ r.2 !! identifier
     = Some {| count := 1 + Z.of_nat (Nat.min (length times) k);
               resetTime := t0 + windowMs |}
  /\ forall m : Z,
       QArith_base.Qeq maxAttempts (QArith_base.inject_Z m) -> k = Z.to_nat (m - 1).
Proof.
  intros Hfresh Htimes. cbv zeta. rewrite isAllowedAtQ_ceiling.
  cbn [isAllowedAt]. rewrite (isAllowed_absent t0) by exact Hfresh. cbn [fst snd].
  destruct (isAllowedAt_within times identifier (Qround.Qceiling maxAttempts) windowMs
              (<[identifier := {| count := 1; resetTime := t0 + windowMs |}]> attempts)
              {| count := 1; resetTime := t0 + windowMs |}
              (lookup_insert_eq _ _ _) Htimes) as [H1 H2].
  cbn [count resetTime] in H1, H2. rewrite H1, H2.
  split; [reflexivity|]. split; [reflexivity|].
  intros m Hm. now rewrite (Qround.Qceiling_comp _ _ Hm), Qround.Qceiling_Z.
Qed.

Lemma isAllowedAtQ_one_window_example :
  let r := isAllowedAtQ [0; 100; 200; 300; 1000]%Z (js "user1")
             (QArith_base.Qmake 5 2) 1000 ∅ in
  r.1 = [true; true; true; false; false]
  /\ r.2 !! js "user1" = Some {| count := 3; resetTime := 1000 |}
  /\ forall m : Z,
       QArith_base.Qeq (QArith_base.Qmake 5 2) (QArith_base.inject_Z m) ->
       Z.to_nat (Qround.Qceiling (QArith_base.Qmake 5 2) - 1) = Z.to_nat (m - 1).
Proof.
  apply (isAllowedAtQ_one_window 0 [100; 200; 300; 1000]%Z (js "user1")
           (QArith_base.Qmake 5 2) 1000 ∅).
  - apply lookup_empty.
  - intros t [<-|[<-|[<-|[<-|[]]]]]; lia.
Defined.
